(** * web/app.py: the download orchestration core, embedded and verified

    The Flask application keeps a global dictionary [download_status] from
    job ids to status dictionaries, runs one background thread per job
    ([download_video_with_progress]) with a progress callback
    ([progress_hook]), and serves the finished artifact once
    ([download_file]) before a delayed cleanup thread removes it.

    Modelling conventions.
    - Values that arrive from outside (request JSON, yt-dlp progress events)
      are dynamically typed and are kept as [pyval]; dictionaries received
      from outside are [gmap string pyval].
    - The status dictionaries the program writes itself have a fixed set of
      literal keys; they are a record whose optional fields are the keys
      that may be absent.
    - Python floats are idealised as exact rationals ([Qc]): rounding of
      the binary64 operations is not modelled, [round(x, 2)] is.
    - Handlers and threads are functions in a state-and-exception monad over
      a [world] holding the store, the file system, the spawned threads, the
      printed lines and the file-system calls made. *)

From Stdlib Require Import ZArith QArith Qcanon Ascii String List Lia.
From Stdlib Require Import Strings.Byte DecimalString DecimalPos.
From stdpp Require Import base option list strings gmap numbers sorting.

Local Open Scope string_scope.
Local Open Scope Z_scope.

(** ** Python values *)

Inductive pyval :=
| PNone
| PBool (b : bool)
| PInt (z : Z)
| PFloat (q : Qc)
| PStr (s : string).

Inductive exn :=
| TypeError
| ValueError
| AttributeError
| FileNotFoundError
| PermissionError
| ZeroDivisionError
| EngineError (msg : string).

Global Instance pyval_eq_dec : EqDecision pyval.
Proof. solve_decision. Defined.

Global Instance exn_eq_dec : EqDecision exn.
Proof. solve_decision. Defined.

(** [bool(v)]: None, False, zero and the empty string are falsy. *)
Definition truthy (v : pyval) : bool :=
  match v with
  | PNone => false
  | PBool b => b
  | PInt z => negb (z =? 0)
  | PFloat q => negb (Qeq_bool q 0)
  | PStr s => negb (String.eqb s "")
  end.

(** [x or y] *)
Definition py_or (x y : pyval) : pyval := if truthy x then x else y.

(** The numeric value of an int, bool or float operand. *)
Definition num_of (v : pyval) : option Qc :=
  match v with
  | PBool b => Some (Qc_of_Z (if b then 1 else 0))
  | PInt z => Some (Qc_of_Z z)
  | PFloat q => Some q
  | PNone | PStr _ => None
  end.

Definition Qcleb (x y : Qc) : bool := Qle_bool x y.
Definition Qcltb (x y : Qc) : bool := negb (Qle_bool y x).

Definition Qc_999_10 : Qc := Q2Qc (999 # 10).
Definition Qc_100 : Qc := Qc_of_Z 100.

(** [min(x, y)] on two floats: the first argument unless the second is
    strictly smaller. *)
Definition py_min (x y : Qc) : Qc := if Qcltb y x then y else x.

(** Nearest integer, ties to even, of a rational. *)
Definition round_half_even (q : Q) : Z :=
  let n := Qnum q in
  let d := Zpos (Qden q) in
  let f := n / d in
  let r := 2 * (n mod d) in
  if r <? d then f
  else if d <? r then f + 1
  else if Z.even f then f else f + 1.

(** [round(x, 2)] on a float. *)
Definition round2 (x : Qc) : Qc :=
  Q2Qc (round_half_even (x * (100 # 1))%Q # 100).

(** [round(v, 2)]: ints stay ints, floats are rounded to two decimals. *)
Definition py_round2 (v : pyval) : pyval :=
  match v with
  | PFloat q => PFloat (round2 q)
  | _ => v
  end.

(** ** Dictionaries from outside: [d.get(k)] and [d.get(k, default)] *)

Definition dict_get (d : gmap string pyval) (k : string) : pyval :=
  default PNone (d !! k).

Definition dict_get_default (d : gmap string pyval) (k : string) (dflt : pyval) : pyval :=
  default dflt (d !! k).

(** ** The status dictionaries of [download_status] *)

Record snapshot := {
  s_status : string;
  s_percent : option pyval;
  s_downloaded : option pyval;
  s_total : option pyval;
  s_speed : option pyval;
  s_eta : option pyval;
  s_filename : option string;
  s_filepath : option string;
  s_title : option pyval;
  s_error : option string
}.

Definition bare (st : string) (pc : option pyval) : snapshot :=
  {| s_status := st; s_percent := pc; s_downloaded := None; s_total := None;
     s_speed := None; s_eta := None; s_filename := None; s_filepath := None;
     s_title := None; s_error := None |}.

Definition queued_snapshot : snapshot := bare "queued" (Some (PInt 0)).
Definition processing_snapshot : snapshot := bare "processing" (Some (PInt 95)).

Definition downloading_snapshot (pc dl tot sp et : pyval) : snapshot :=
  {| s_status := "downloading"; s_percent := Some pc; s_downloaded := Some dl;
     s_total := Some tot; s_speed := Some sp; s_eta := Some et;
     s_filename := None; s_filepath := None; s_title := None; s_error := None |}.

Definition completed_snapshot (name path : string) (title : pyval) : snapshot :=
  {| s_status := "completed"; s_percent := Some (PInt 100); s_downloaded := None;
     s_total := None; s_speed := None; s_eta := None; s_filename := Some name;
     s_filepath := Some path; s_title := Some title; s_error := None |}.

Definition error_snapshot (msg : string) : snapshot :=
  {| s_status := "error"; s_percent := None; s_downloaded := None; s_total := None;
     s_speed := None; s_eta := None; s_filename := None; s_filepath := None;
     s_title := None; s_error := Some msg |}.

(** ** The world *)

Record file := { content : list byte; deletable : bool }.

Inductive thread :=
| TDownload (download_id : string) (url format_type file_format quality : pyval)
| TCleanup (filepath download_id : string).

Inductive io_op :=
| IoExists (path : string)
| IoGetsize (path : string)
| IoOpen (path : string)
| IoRead (path : string)
| IoClose (path : string)
| IoRemove (path : string).

Inductive log_line :=
| LogProgress (download_id : string) (percent : pyval)
| LogFinished (download_id : string)
| LogHookError (download_id : string) (e : exn)
| LogDeleteError (e : exn).

Record world := {
  download_status : gmap string snapshot;
  files : gmap string file;
  threads : list thread;
  stdout : list log_line;
  io_log : list io_op;
  (* ghost: every assignment [download_status[id] = snap], oldest first *)
  writes : list (string * snapshot)
}.

Definition empty_world : world :=
  {| download_status := ∅; files := ∅; threads := []; stdout := [];
     io_log := []; writes := [] |}.

(** ** State and exception monad *)

Inductive result (A : Type) :=
| Ok (a : A)
| Raise (e : exn).
Arguments Ok {A} a.
Arguments Raise {A} e.

Definition M (A : Type) : Type := world → result A * world.

Definition ret {A} (a : A) : M A := λ w, (Ok a, w).
Definition raise {A} (e : exn) : M A := λ w, (Raise e, w).
Definition bind {A B} (m : M A) (k : A → M B) : M B :=
  λ w, match m w with
       | (Ok a, w') => k a w'
       | (Raise e, w') => (Raise e, w')
       end.
(** [try: m except Exception as e: h e] *)
Definition try_except {A} (m : M A) (h : exn → M A) : M A :=
  λ w, match m w with
       | (Ok a, w') => (Ok a, w')
       | (Raise e, w') => h e w'
       end.

Notation "'let!' x ':=' m 'in' k" := (bind m (λ x, k))
  (at level 10, x name, m at level 100, k at level 200).
Notation "m ;;; k" := (bind m (λ _, k))
  (at level 100, right associativity).

Definition lift {A} (o : result A) : M A :=
  λ w, (o, w).

(** [download_status[id] = snap] *)
Definition store_set (id : string) (snap : snapshot) : M unit :=
  λ w, (Ok (),
        {| download_status := <[id := snap]> (download_status w);
           files := files w; threads := threads w; stdout := stdout w;
           io_log := io_log w; writes := writes w ++ [(id, snap)] |}).

(** [del download_status[id]] *)
Definition store_del (id : string) : M unit :=
  λ w, (Ok (),
        {| download_status := delete id (download_status w);
           files := files w; threads := threads w; stdout := stdout w;
           io_log := io_log w; writes := writes w |}).

Definition store_get (id : string) : M (option snapshot) :=
  λ w, (Ok (download_status w !! id), w).

Definition print (l : log_line) : M unit :=
  λ w, (Ok (),
        {| download_status := download_status w; files := files w;
           threads := threads w; stdout := stdout w ++ [l];
           io_log := io_log w; writes := writes w |}).

Definition io (o : io_op) : M unit :=
  λ w, (Ok (),
        {| download_status := download_status w; files := files w;
           threads := threads w; stdout := stdout w;
           io_log := io_log w ++ [o]; writes := writes w |}).

(** [threading.Thread(target=...).start()] *)
Definition spawn (t : thread) : M unit :=
  λ w, (Ok (),
        {| download_status := download_status w; files := files w;
           threads := threads w ++ [t]; stdout := stdout w;
           io_log := io_log w; writes := writes w |}).

(** ** Arithmetic of the progress hook *)

(** [downloaded / total]: true division; a non-numeric operand raises
    TypeError, a zero divisor ZeroDivisionError. *)
Definition py_truediv (a b : pyval) : result Qc :=
  match num_of a, num_of b with
  | Some x, Some y => if Qeq_bool y 0 then Raise ZeroDivisionError else Ok (x / y)%Qc
  | _, _ => Raise TypeError
  end.

(** [total > 0] *)
Definition py_gt0 (v : pyval) : result bool :=
  match num_of v with
  | Some x => Ok (Qcltb 0%Qc x)
  | None => Raise TypeError
  end.

(** [total and total > 0], as a condition *)
Definition total_is_positive (total : pyval) : result bool :=
  if truthy total then py_gt0 total else Ok false.

(** ** progress_hook *)

(** [d.get('total_bytes') or d.get('total_bytes_estimate', 0)] *)
Definition event_total (d : gmap string pyval) : pyval :=
  py_or (dict_get d "total_bytes") (dict_get_default d "total_bytes_estimate" (PInt 0)).

(** [d.get('downloaded_bytes', 0)] *)
Definition event_downloaded (d : gmap string pyval) : pyval :=
  dict_get_default d "downloaded_bytes" (PInt 0).

Definition progress_hook_body (download_id : string) (d : gmap string pyval) : M unit :=
  let status := dict_get d "status" in
  if decide (status = PStr "downloading") then
    let total := event_total d in
    let downloaded := event_downloaded d in
    let! pos := lift (total_is_positive total) in
    let! percent := (if pos : bool then
                       let! q := lift (py_truediv downloaded total) in
                       ret (PFloat (py_min (q * Qc_100)%Qc Qc_999_10))
                     else ret (PInt 0)) in
    let progress_data :=
      downloading_snapshot (py_round2 percent) downloaded total
        (dict_get_default d "speed" (PInt 0)) (dict_get_default d "eta" (PInt 0)) in
    store_set download_id progress_data ;;;
    print (LogProgress download_id percent)
  else if decide (status = PStr "finished") then
    store_set download_id processing_snapshot ;;;
    print (LogFinished download_id)
  else ret ().

Definition progress_hook (download_id : string) (d : gmap string pyval) : M unit :=
  try_except (progress_hook_body download_id d)
             (λ e, print (LogHookError download_id e)).

(** ** Python string operations

    Strings are byte strings; case mapping and character classes are the
    ASCII ones. *)

Definition char_in (c : ascii) (set : string) : bool :=
  existsb (Ascii.eqb c) (list_ascii_of_string set).

Definition is_upper (c : ascii) : bool :=
  let n := nat_of_ascii c in ((65 <=? n) && (n <=? 90))%nat.
Definition is_lower (c : ascii) : bool :=
  let n := nat_of_ascii c in ((97 <=? n) && (n <=? 122))%nat.
Definition is_digit (c : ascii) : bool :=
  let n := nat_of_ascii c in ((48 <=? n) && (n <=? 57))%nat.
Definition is_alpha (c : ascii) : bool := is_upper c || is_lower c.
(** [str.isspace] on ASCII: TAB..CR, FS..US and space. *)
Definition is_space (c : ascii) : bool :=
  let n := nat_of_ascii c in
  (((9 <=? n) && (n <=? 13)) || ((28 <=? n) && (n <=? 32)))%nat.

Definition lower_char (c : ascii) : ascii :=
  if is_upper c then ascii_of_nat (nat_of_ascii c + 32) else c.

(** [s.lower()] *)
Fixpoint lower (s : string) : string :=
  match s with
  | EmptyString => EmptyString
  | String c s' => String (lower_char c) (lower s')
  end.

(** [s.startswith(p)] *)
Fixpoint startswith (s p : string) : bool :=
  match p, s with
  | EmptyString, _ => true
  | String a p', String b s' => Ascii.eqb b a && startswith s' p'
  | String _ _, EmptyString => false
  end.

(** [needle in s] *)
Fixpoint contains (needle s : string) : bool :=
  startswith s needle ||
  match s with
  | EmptyString => false
  | String _ s' => contains needle s'
  end.

Fixpoint drop_str (n : nat) (s : string) : string :=
  match n, s with
  | O, _ => s
  | S n', String _ s' => drop_str n' s'
  | S _, EmptyString => EmptyString
  end.

(** [s.endswith(suf)] *)
Definition endswith (s suf : string) : bool :=
  (String.length suf <=? String.length s)%nat &&
  String.eqb (drop_str (String.length s - String.length suf) s) suf.

(** [s.replace(old, new)] for a non-empty [old]: non-overlapping
    occurrences, left to right.  [skip] counts the characters of a matched
    occurrence still to be passed over. *)
Fixpoint replace_from (old new : string) (skip : nat) (s : string) : string :=
  match s with
  | EmptyString => EmptyString
  | String c s' =>
      match skip with
      | S k => replace_from old new k s'
      | O => if startswith s old
             then new +:+ replace_from old new (String.length old - 1) s'
             else String c (replace_from old new 0 s')
      end
  end.

Definition replace (old new s : string) : string := replace_from old new 0 s.

(** [s.partition(c)]: the text before the first [c] and, when [c] occurs,
    the text after it. *)
Fixpoint partition (c : ascii) (s : string) : string * option string :=
  match s with
  | EmptyString => (EmptyString, None)
  | String a s' =>
      if Ascii.eqb a c then (EmptyString, Some s')
      else let '(h, t) := partition c s' in (String a h, t)
  end.

(** [s.split(c)[0]] *)
Definition split_head (c : ascii) (s : string) : string := fst (partition c s).

(** [s.split(c)] *)
Fixpoint split_on (c : ascii) (s : string) : list string :=
  match s with
  | EmptyString => [EmptyString]
  | String a s' =>
      if Ascii.eqb a c then EmptyString :: split_on c s'
      else match split_on c s' with
           | h :: t => String a h :: t
           | [] => [String a EmptyString]
           end
  end.

(** The text before the last [c], when [c] occurs. *)
Fixpoint before_last (c : ascii) (s : string) : option string :=
  match s with
  | EmptyString => None
  | String a s' =>
      match before_last c s' with
      | Some t => Some (String a t)
      | None => if Ascii.eqb a c then Some EmptyString else None
      end
  end.

(** The text after the last [c], when [c] occurs. *)
Fixpoint after_last (c : ascii) (s : string) : option string :=
  match s with
  | EmptyString => None
  | String a s' =>
      match after_last c s' with
      | Some t => Some t
      | None => if Ascii.eqb a c then Some s' else None
      end
  end.

(** [s.rsplit(c, 1)[0]] *)
Definition rsplit_head (c : ascii) (s : string) : string :=
  default s (before_last c s).

(** [os.path.basename(p)] (POSIX) *)
Definition basename (p : string) : string := default p (after_last "/" p).

(** [os.path.join(a, b)] (POSIX) *)
Definition path_join (a b : string) : string :=
  if startswith b "/" then b
  else if String.eqb a "" || endswith a "/" then a +:+ b
  else a +:+ "/" +:+ b.

(** [s.lstrip(chars)] *)
Fixpoint lstrip (chars : ascii → bool) (s : string) : string :=
  match s with
  | EmptyString => EmptyString
  | String a s' => if chars a then lstrip chars s' else s
  end.

Definition rev_str (s : string) : string :=
  string_of_list_ascii (rev (list_ascii_of_string s)).

(** [s.strip()] *)
Definition strip (s : string) : string :=
  rev_str (lstrip is_space (rev_str (lstrip is_space s))).

(** [str(n)] and [f"{n}"] for an int *)
Definition str_of_int (z : Z) : string :=
  DecimalString.NilZero.string_of_int (Z.to_int z).

Definition digit_val (c : ascii) : Z := Z.of_nat (nat_of_ascii c - 48).

(** The digit part of an int literal: decimal digits, single underscores
    allowed between digits. *)
Fixpoint int_digits (acc : Z) (after_digit : bool) (s : string) : option Z :=
  match s with
  | EmptyString => if after_digit then Some acc else None
  | String c s' =>
      if is_digit c then int_digits (10 * acc + digit_val c) true s'
      else if Ascii.eqb c "_" && after_digit then
        match s' with
        | String c' _ => if is_digit c' then int_digits acc false s' else None
        | EmptyString => None
        end
      else None
  end.

(** [int(s)] for a string: surrounding whitespace, an optional sign, then the
    digits; anything else is a ValueError. *)
Definition py_int (s : string) : result Z :=
  let t := strip s in
  let parsed :=
    match t with
    | String c r =>
        if Ascii.eqb c "-" then Z.opp <$> int_digits 0 false r
        else if Ascii.eqb c "+" then int_digits 0 false r
        else int_digits 0 false t
    | EmptyString => int_digits 0 false t
    end in
  match parsed with
  | Some z => Ok z
  | None => Raise ValueError
  end.

(** Methods of [str] called on a dynamically typed value: a value that is
    not a string has no such attribute. *)
Definition val_lower (v : pyval) : result string :=
  match v with
  | PStr s => Ok (lower s)
  | _ => Raise AttributeError
  end.

Definition val_replace (old new : string) (v : pyval) : result string :=
  match v with
  | PStr s => Ok (replace old new s)
  | _ => Raise AttributeError
  end.

Definition rbind {A B} (r : result A) (k : A → result B) : result B :=
  match r with
  | Ok a => k a
  | Raise e => Raise e
  end.

(** ** Engine options built by download_video_with_progress *)

Record postprocessor := {
  pp_key : string;
  preferredcodec : string;
  preferredquality : string
}.

Record ydl_opts := {
  format : string;
  outtmpl : string;
  postprocessors : list postprocessor;
  merge_output_format : option string;
  (* the download id the attached [progress_hook] closes over *)
  progress_hooks : list string;
  noprogress : bool;
  quiet : bool;
  no_warnings : bool
}.

(** [quality_map.get(quality, '192')] *)
Definition quality_map : list (string * string) :=
  [("128", "128"); ("192", "192"); ("256", "256"); ("320", "320"); ("best", "192")].

Fixpoint assoc_get (m : list (string * string)) (k : string) : option string :=
  match m with
  | [] => None
  | (k', v) :: m' => if String.eqb k k' then Some v else assoc_get m' k
  end.

Definition audio_quality (quality : pyval) : string :=
  match quality with
  | PStr q => default "192" (assoc_get quality_map q)
  | _ => "192"
  end.

(** The [format_string] of the video branch. *)
Definition format_string (video_format : string) (quality : pyval) : result string :=
  if decide (quality = PStr "best") then Ok "bestvideo+bestaudio/best"
  else
    rbind (val_replace "p" "" quality) (λ digits,
    rbind (py_int digits) (λ height,
    let h := str_of_int height in
    if String.eqb video_format "mp4" then
      Ok ("bestvideo[height<=" +:+ h +:+ "][ext=mp4]+bestaudio[ext=m4a]/bestvideo[height<="
          +:+ h +:+ "]+bestaudio/best[height<=" +:+ h +:+ "][ext=mp4]/best[ext=mp4]/best")
    else if String.eqb video_format "mkv" then
      Ok ("bestvideo[height<=" +:+ h +:+ "]+bestaudio/best[height<=" +:+ h +:+ "]/best")
    else
      Ok ("bestvideo[height<=" +:+ h +:+ "]+bestaudio/best"))).

Definition build_ydl_opts (download_id temp_file : string)
    (format_type file_format quality : pyval) : result ydl_opts :=
  if decide (format_type = PStr "audio") then
    rbind (val_lower file_format) (λ audio_codec,
    Ok {| format := "bestaudio/best";
          outtmpl := replace ".tmp" ".%(ext)s" temp_file;
          postprocessors :=
            [ {| pp_key := "FFmpegExtractAudio";
                 preferredcodec := audio_codec;
                 preferredquality := audio_quality quality |} ];
          merge_output_format := None;
          progress_hooks := [download_id];
          noprogress := false; quiet := true; no_warnings := true |})
  else
    rbind (val_lower file_format) (λ video_format,
    rbind (format_string video_format quality) (λ fs,
    Ok {| format := fs;
          outtmpl := replace ".tmp" ".%(ext)s" temp_file;
          postprocessors := [];
          merge_output_format := Some video_format;
          progress_hooks := [download_id];
          noprogress := false; quiet := true; no_warnings := true |})).

(** The extension fix-up applied to the engine's file name. *)
Definition final_filename (format_type file_format : pyval) (filename : string) : result string :=
  if decide (format_type = PStr "audio") then
    rbind (val_lower file_format) (λ ff,
    if String.eqb ff "wav" then Ok (rsplit_head "." filename +:+ ".wav")
    else Ok (rsplit_head "." filename +:+ ".mp3"))
  else
    rbind (val_lower file_format) (λ video_ext,
    if endswith filename ("." +:+ video_ext) then Ok filename
    else Ok (rsplit_head "." filename +:+ "." +:+ video_ext)).

(** ** urllib.parse, as far as clean_youtube_url uses it

    [urlparse] follows CPython 3.11 and later.  The library's validation of
    a netloc with a bracketed (IPv6 or IPvFuture) host or with non-ASCII
    characters is taken as a parameter; [unquote] replaces each [%XX] by the
    byte it denotes. *)

Record parse_result := {
  scheme : string;
  netloc : string;
  path : string;
  params : string;
  query : string;
  fragment : string
}.

Definition scheme_chars : string :=
  "abcdefghijklmnopqrstuvwxyzABCDEFGHIJKLMNOPQRSTUVWXYZ0123456789+-.".

Definition uses_params : list string :=
  [""; "ftp"; "hdl"; "prospero"; "http"; "imap"; "https"; "shttp"; "rtsp";
   "rtspu"; "sip"; "sips"; "mms"; "sftp"; "tel"].

Definition c0_control_or_space (c : ascii) : bool := (nat_of_ascii c <=? 32)%nat.

Definition unsafe_url_byte (c : ascii) : bool :=
  ((nat_of_ascii c =? 9) || (nat_of_ascii c =? 10) || (nat_of_ascii c =? 13))%nat.

Fixpoint remove_chars (bad : ascii → bool) (s : string) : string :=
  match s with
  | EmptyString => EmptyString
  | String a s' => if bad a then remove_chars bad s' else String a (remove_chars bad s')
  end.

Fixpoint all_chars (ok : ascii → bool) (s : string) : bool :=
  match s with
  | EmptyString => true
  | String a s' => ok a && all_chars ok s'
  end.

(** The longest prefix without a stop character, and the rest. *)
Fixpoint span_until (stop : ascii → bool) (s : string) : string * string :=
  match s with
  | EmptyString => (EmptyString, EmptyString)
  | String a s' =>
      if stop a then (EmptyString, s)
      else let '(h, t) := span_until stop s' in (String a h, t)
  end.

Definition is_ascii (c : ascii) : bool := (nat_of_ascii c <? 128)%nat.

Definition first_char_alpha (s : string) : bool :=
  match s with
  | String a _ => is_alpha a
  | EmptyString => false
  end.

(** The scheme, when the text before the first colon is one. *)
Definition split_scheme (url : string) : string * string :=
  match partition ":" url with
  | (head, Some rest) =>
      if negb (String.eqb head "") && first_char_alpha url
         && all_chars (λ c, char_in c scheme_chars) head
      then (lower head, rest)
      else (EmptyString, url)
  | (_, None) => (EmptyString, url)
  end.

Definition netloc_delim (c : ascii) : bool := char_in c "/?#".

(** [_splitparams] *)
Definition splitparams (url : string) : string * string :=
  if contains "/" url then
    match before_last "/" url, after_last "/" url with
    | Some dir, Some tail =>
        match partition ";" tail with
        | (h, Some t) => (dir +:+ "/" +:+ h, t)
        | (_, None) => (url, EmptyString)
        end
    | _, _ => (url, EmptyString)
    end
  else
    match partition ";" url with
    | (h, Some t) => (h, t)
    | (_, None) => (url, EmptyString)
    end.

Section Urllib.

(** The library's check of a netloc that has both brackets or a non-ASCII
    character. *)
Variable valid_netloc : string → bool.

Definition urlparse (url0 : string) : result parse_result :=
  let url1 := remove_chars unsafe_url_byte (lstrip c0_control_or_space url0) in
  let '(sch, url2) := split_scheme url1 in
  let '(loc, url3) :=
    if startswith url2 "//" then span_until netloc_delim (drop_str 2 url2)
    else (EmptyString, url2) in
  let open_br := contains "[" loc in
  let close_br := contains "]" loc in
  if (open_br && negb close_br) || (close_br && negb open_br) then Raise ValueError
  else if ((open_br && close_br) || negb (all_chars is_ascii loc))
          && negb (valid_netloc loc) then Raise ValueError
  else
    let '(url4, frag) :=
      match partition "#" url3 with
      | (h, Some t) => (h, t)
      | (_, None) => (url3, EmptyString)
      end in
    let '(url5, qry) :=
      match partition "?" url4 with
      | (h, Some t) => (h, t)
      | (_, None) => (url4, EmptyString)
      end in
    let '(url6, prm) :=
      if existsb (String.eqb sch) uses_params && contains ";" url5
      then splitparams url5
      else (url5, EmptyString) in
    Ok {| scheme := sch; netloc := loc; path := url6; params := prm;
          query := qry; fragment := frag |}.

Definition hex_val (c : ascii) : option nat :=
  let n := nat_of_ascii c in
  if is_digit c then Some (n - 48)%nat
  else if ((97 <=? n) && (n <=? 102))%nat then Some (n - 87)%nat
  else if ((65 <=? n) && (n <=? 70))%nat then Some (n - 55)%nat
  else None.

(** [unquote(s)] *)
Fixpoint unquote (s : string) : string :=
  match s with
  | EmptyString => EmptyString
  | String c s' =>
      let keep := String c (unquote s') in
      if Ascii.eqb c "%" then
        match s' with
        | String h (String l _) =>
            match hex_val h, hex_val l with
            | Some x, Some y =>
                String (ascii_of_nat (16 * x + y)) (drop_str 2 (unquote s'))
            | _, _ => keep
            end
        | _ => keep
        end
      else keep
  end.

(** [parse_qsl(qs)] with the default arguments: fields without [=] and
    fields with an empty value are dropped. *)
Definition parse_qsl (qs : string) : list (string * string) :=
  if String.eqb qs "" then []
  else
    flat_map (λ name_value,
      if String.eqb name_value "" then []
      else match partition "=" name_value with
           | (name, Some value) =>
               if String.eqb value "" then []
               else [(unquote (replace "+" " " name), unquote (replace "+" " " value))]
           | (_, None) => []
           end)
      (split_on "&" qs).

(** [parse_qs(qs).get(name)[0]]: the first value given for [name]. *)
Fixpoint qs_first (name : string) (pairs : list (string * string)) : option string :=
  match pairs with
  | [] => None
  | (n, v) :: rest => if String.eqb n name then Some v else qs_first name rest
  end.

(** [re.search(r'[?&]v=([^&]+)', s).group(1)] *)
Fixpoint re_search_v (s : string) : option string :=
  match s with
  | EmptyString => None
  | String c s' =>
      let here :=
        if (Ascii.eqb c "?" || Ascii.eqb c "&") && startswith s' "v=" then
          match drop_str 2 s' with
          | String a _ as rest => if Ascii.eqb a "&" then None else Some (split_head "&" rest)
          | EmptyString => None
          end
        else None in
      match here with
      | Some g => Some g
      | None => re_search_v s'
      end
  end.

(** ** clean_youtube_url *)

Definition canonical_url (video_id : string) : string :=
  "https://www.youtube.com/watch?v=" +:+ video_id.

Definition is_slash (c : ascii) : bool := Ascii.eqb c "/".

(** [if video_id:] on a value that is None or a string *)
Definition nonempty (o : option string) : option string :=
  match o with
  | Some s => if String.eqb s "" then None else Some s
  | None => None
  end.

Definition clean_youtube_url (url : string) : result string :=
  if String.eqb url "" then Ok url
  else
    rbind (urlparse url) (λ parsed,
    let video_id :=
      if contains "youtube.com/watch" url || contains "youtu.be" url then
        if contains "youtu.be" url then
          Some (split_head "&" (split_head "?" (lstrip is_slash (path parsed))))
        else if contains "watch" (path parsed) || contains "v=" (query parsed) then
          match qs_first "v" (parse_qsl (query parsed)) with
          | Some v => Some (split_head "&" v)
          | None => None
          end
        else None
      else None in
    match nonempty video_id with
    | Some vid => Ok (canonical_url vid)
    | None =>
        let playlist_match :=
          if contains "list=" url then re_search_v url else None in
        match playlist_match with
        | Some vid => Ok (canonical_url vid)
        | None => Ok (if contains "&" url then split_head "&" url else url)
        end
    end).

(** [clean_youtube_url] on a dynamically typed argument: a falsy value is
    returned as it is, a string is cleaned, and [urlparse] rejects any other
    value. *)
Definition clean_youtube_url_val (url : pyval) : result pyval :=
  if negb (truthy url) then Ok url
  else match url with
       | PStr s => rbind (clean_youtube_url s) (λ r, Ok (PStr r))
       | _ => Raise AttributeError
       end.

End Urllib.

(** ** File-system calls *)

Definition set_files (fs : gmap string file) : M unit :=
  λ w, (Ok (),
        {| download_status := download_status w; files := fs;
           threads := threads w; stdout := stdout w;
           io_log := io_log w; writes := writes w |}).

Definition get_files : M (gmap string file) := λ w, (Ok (files w), w).

(** [os.path.exists(p)] *)
Definition os_path_exists (p : string) : M bool :=
  io (IoExists p) ;;;
  let! fs := get_files in
  ret (bool_decide (is_Some (fs !! p))).

(** [os.path.getsize(p)] *)
Definition os_path_getsize (p : string) : M nat :=
  io (IoGetsize p) ;;;
  let! fs := get_files in
  match fs !! p with
  | Some f => ret (length (content f))
  | None => raise FileNotFoundError
  end.

(** [os.remove(p)] *)
Definition os_remove (p : string) : M unit :=
  io (IoRemove p) ;;;
  let! fs := get_files in
  match fs !! p with
  | None => raise FileNotFoundError
  | Some f => if deletable f then set_files (delete p fs) else raise PermissionError
  end.

(** [try: m finally: fin] *)
Definition try_finally {A} (m : M A) (fin : M unit) : M A :=
  λ w, match m w with
       | (r, w') =>
           match fin w' with
           | (Ok _, w'') => (r, w'')
           | (Raise e, w'') => (Raise e, w'')
           end
       end.

(** ** HTTP responses *)

Inductive body :=
| BError (msg : string)
| BSuccess (download_id : string)
| BStatus (s : snapshot).

Record stream := {
  disposition_filename : option string;
  content_length : nat;
  (* the variables the [generate] closure captures *)
  gen_filepath : string;
  gen_download_id : string
}.

Inductive response :=
| Json (code : nat) (b : body)
| Stream (s : stream).

Definition not_found_status : snapshot := bare "not_found" None.

(** ** The job thread *)

Record engine_run := {
  (* the progress events passed to the hook, in order *)
  events : list (gmap string pyval);
  (* the files the engine leaves on disk *)
  produced : list (string * file);
  (* [info] and [prepare_filename(info)], or the exception raised *)
  outcome : result (gmap string pyval * string)
}.

Fixpoint add_files (l : list (string * file)) (fs : gmap string file) : gmap string file :=
  match l with
  | [] => fs
  | (p, f) :: l' => add_files l' (<[p := f]> fs)
  end.

Section Runner.

(** [tempfile.gettempdir()] *)
Variable temp_dir : string.
(** yt-dlp: what [extract_info(url, download=True)] does under given options *)
Variable engine : ydl_opts → pyval → engine_run.
(** [str(e)] *)
Variable str_exn : exn → string.
Variable valid_netloc : string → bool.

Fixpoint run_hooks (download_id : string) (evs : list (gmap string pyval)) : M unit :=
  match evs with
  | [] => ret ()
  | d :: evs' => progress_hook download_id d ;;; run_hooks download_id evs'
  end.

Definition download_video_with_progress (download_id : string)
    (url format_type file_format quality : pyval) : M unit :=
  let! url := lift (clean_youtube_url_val valid_netloc url) in
  let temp_file := path_join temp_dir (download_id +:+ ".tmp") in
  try_except
    (let! opts := lift (build_ydl_opts download_id temp_file format_type file_format quality) in
     let run := engine opts url in
     run_hooks download_id (events run) ;;;
     (let! fs := get_files in set_files (add_files (produced run) fs)) ;;;
     let! res := lift (outcome run) in
     let '(info, filename) := res in
     let! filename := lift (final_filename format_type file_format filename) in
     store_set download_id
       (completed_snapshot (basename filename) filename
          (dict_get_default info "title" (PStr "Bilinmeyen"))))
    (λ e, store_set download_id (error_snapshot (str_exn e))).

(** ** POST /api/download *)

Definition download (data : gmap string pyval) (uuid4 : string) : M response :=
  let url := dict_get_default data "url" (PStr "") in
  let format_type := dict_get_default data "format" (PStr "video") in
  let file_format := dict_get_default data "file_format" (PStr "mp4") in
  let quality := dict_get_default data "quality" (PStr "best") in
  if negb (truthy url) then ret (Json 400 (BError "URL gerekli"))
  else
    let download_id := uuid4 in
    store_set download_id queued_snapshot ;;;
    spawn (TDownload download_id url format_type file_format quality) ;;;
    ret (Json 200 (BSuccess download_id)).

(** ** GET /api/download/status/<download_id> *)

Definition download_status_endpoint (download_id : string) : M response :=
  let! status := store_get download_id in
  ret (Json 200 (BStatus (default not_found_status status))).

(** ** GET /api/download/file/<download_id> *)

Definition download_file (download_id : string) : M response :=
  let! status := store_get download_id in
  match status with
  | None => ret (Json 404 (BError "İndirme tamamlanmadı"))
  | Some st =>
      if negb (String.eqb (s_status st) "completed")
      then ret (Json 404 (BError "İndirme tamamlanmadı"))
      else
        let filepath := s_filepath st in
        let filename := s_filename st in
        match nonempty filepath with
        | None => ret (Json 404 (BError "Dosya bulunamadı"))
        | Some p =>
            let! there := os_path_exists p in
            if negb there then ret (Json 404 (BError "Dosya bulunamadı"))
            else
              let! size := os_path_getsize p in
              ret (Stream {| disposition_filename := filename;
                             content_length := size;
                             gen_filepath := p;
                             gen_download_id := download_id |})
        end
  end.

Definition chunk_size : nat := Z.to_nat 8192.

(** The [while True: chunk = read(8192)] loop: the chunks yielded from the
    remaining bytes of the file.  The fuel bounds the number of reads. *)
Fixpoint read_loop (fuel : nat) (data : list byte) : list (list byte) :=
  match fuel with
  | O => []
  | S fuel' =>
      match take chunk_size data with
      | [] => []
      | chunk => chunk :: read_loop fuel' (drop chunk_size data)
      end
  end.

Definition file_chunks (data : list byte) : list (list byte) :=
  read_loop (S (length data)) data.

(** The body of [generate()], run by the server.  [limit] is the number of
    chunks the client takes before it disconnects ([None]: all of them); a
    generator that is closed before its first chunk is requested never
    runs.  The chunks yielded are returned. *)
Definition generate (filepath download_id : string) (limit : option nat)
    : M (list (list byte)) :=
  if decide (limit = Some 0%nat) then ret []
  else
    try_finally
      (io (IoOpen filepath) ;;;
       let! fs := get_files in
       match fs !! filepath with
       | None => raise FileNotFoundError
       | Some f =>
           let all := file_chunks (content f) in
           let sent := match limit with
                       | Some n => take n all
                       | None => all
                       end in
           io (IoRead filepath) ;;;
           io (IoClose filepath) ;;;
           ret sent
       end)
      (spawn (TCleanup filepath download_id)).

(** ** delete_file_after_delay

    The thread makes two separate steps after its sleep: the file removal,
    outside the lock, and the removal of the store entry, under the lock.
    An exception in the first skips the second. *)

Inductive cleanup_pc := PcRemoveFile | PcRemoveEntry | PcDone.

Definition cleanup_remove_file (filepath : string) : M unit :=
  let! there := os_path_exists filepath in
  if there : bool then os_remove filepath else ret ().

Definition cleanup_remove_entry (download_id : string) : M unit :=
  let! status := store_get download_id in
  match status with
  | Some _ => store_del download_id
  | None => ret ()
  end.

Definition delete_file_after_delay (filepath download_id : string) : M unit :=
  try_except
    (cleanup_remove_file filepath ;;; cleanup_remove_entry download_id)
    (λ e, print (LogDeleteError e)).

(** One atomic step of the cleanup thread, for interleavings. *)
Definition cleanup_step (filepath download_id : string) (pc : cleanup_pc) : M cleanup_pc :=
  match pc with
  | PcRemoveFile =>
      try_except (cleanup_remove_file filepath ;;; ret PcRemoveEntry)
                 (λ e, print (LogDeleteError e) ;;; ret PcDone)
  | PcRemoveEntry =>
      try_except (cleanup_remove_entry download_id ;;; ret PcDone)
                 (λ e, print (LogDeleteError e) ;;; ret PcDone)
  | PcDone => ret PcDone
  end.

Definition run_thread (t : thread) : M unit :=
  match t with
  | TDownload download_id url format_type file_format quality =>
      download_video_with_progress download_id url format_type file_format quality
  | TCleanup filepath download_id => delete_file_after_delay filepath download_id
  end.

End Runner.

(** ** extract_video_id

    [re.search] for the two patterns of the function.  The id group
    [[^&\n?#]+] is the longest run of characters other than [&], newline,
    [?] and [#], and needs at least one. *)

Definition id_stop (c : ascii) : bool :=
  char_in c "&?#" || (nat_of_ascii c =? 10)%nat.

Definition id_group (s : string) : option string :=
  match s with
  | String a _ => if id_stop a then None else Some (fst (span_until id_stop s))
  | EmptyString => None
  end.

(** The text after [p] when [s] starts with [p]. *)
Definition after_prefix (p s : string) : option string :=
  if startswith s p then Some (drop_str (String.length p) s) else None.

(** A match of
    [(?:youtube\.com\/watch\?v=|youtu\.be\/|youtube\.com\/embed\/)([^&\n?#]+)]
    that starts at the head of [s]: the alternatives are tried in order. *)
Definition match_id_pattern (s : string) : option string :=
  match after_prefix "youtube.com/watch?v=" s ≫= id_group with
  | Some g => Some g
  | None =>
      match after_prefix "youtu.be/" s ≫= id_group with
      | Some g => Some g
      | None => after_prefix "youtube.com/embed/" s ≫= id_group
      end
  end.

Fixpoint search_id_pattern (s : string) : option string :=
  match match_id_pattern s with
  | Some g => Some g
  | None =>
      match s with
      | String _ s' => search_id_pattern s'
      | EmptyString => None
      end
  end.

(** [.*v=([^&\n?#]+)] from the head of [s]: the greedy [.*] stays on the
    line and ends at the last [v=] that an id follows. *)
Fixpoint last_v_group (s : string) : option string :=
  match s with
  | EmptyString => None
  | String c s' =>
      let later := if (nat_of_ascii c =? 10)%nat then None else last_v_group s' in
      match later with
      | Some g => Some g
      | None => after_prefix "v=" s ≫= id_group
      end
  end.

(** A match of [youtube\.com\/watch\?.*v=([^&\n?#]+)] at the head of [s]. *)
Definition match_watch_pattern (s : string) : option string :=
  after_prefix "youtube.com/watch?" s ≫= last_v_group.

Fixpoint search_watch_pattern (s : string) : option string :=
  match match_watch_pattern s with
  | Some g => Some g
  | None =>
      match s with
      | String _ s' => search_watch_pattern s'
      | EmptyString => None
      end
  end.

Section ExtractVideoId.

Variable valid_netloc : string → bool.

Definition extract_video_id (url : string) : result (option string) :=
  rbind (clean_youtube_url valid_netloc url) (λ url,
  match search_id_pattern url with
  | Some g => Ok (Some g)
  | None => Ok (search_watch_pattern url)
  end).

End ExtractVideoId.

(** ** get_video_info

    The metadata the engine returns: the scalar fields, the list under
    ['formats'] and the list under ['entries'], each absent when the key is.
    An entry of a playlist is a metadata dictionary or None. *)

#[warnings="-register-all"]
Inductive video_info :=
| VideoInfo (fields : gmap string pyval)
            (formats : option (list (gmap string pyval)))
            (entries : option (list (option video_info))).

Definition info_fields (i : video_info) : gmap string pyval :=
  match i with VideoInfo f _ _ => f end.
Definition info_formats (i : video_info) : option (list (gmap string pyval)) :=
  match i with VideoInfo _ f _ => f end.
Definition info_entries (i : video_info) : option (list (option video_info)) :=
  match i with VideoInfo _ _ e => e end.

(** [if e]: None and the empty dictionary are falsy. *)
Definition entry_truthy (e : option video_info) : bool :=
  match e with
  | None => false
  | Some (VideoInfo f fm en) =>
      negb (bool_decide (f = ∅) && bool_decide (fm = None) && bool_decide (en = None))
  end.

(** What [get_video_info] returns: [{'error': msg}] or the summary. *)
Inductive info_response :=
| InfoError (msg : string)
| InfoOk (title thumbnail duration uploader view_count : pyval)
         (max_quality : string) (max_height : pyval) (available_qualities : list pyval).

Definition quality_order : list Z := [2160; 1440; 1080; 720; 480; 360; 240; 144].

(** [a == b] on values that may be numbers *)
Definition py_eqb (a b : pyval) : bool :=
  match num_of a, num_of b with
  | Some x, Some y => Qeq_bool x y
  | _, _ => bool_decide (a = b)
  end.

(** [s.add(v)] on a set kept as the list of its elements *)
Definition set_add (v : pyval) (s : list pyval) : list pyval :=
  if existsb (py_eqb v) s then s else s ++ [v].

(** [a > b] where [b] is a number: a value that is not a number cannot be
    compared with it. *)
Definition py_gt (a b : pyval) : result bool :=
  match num_of a, num_of b with
  | Some x, Some y => Ok (Qcltb y x)
  | _, _ => Raise TypeError
  end.

(** [a <= b] likewise *)
Definition py_le (a b : pyval) : result bool :=
  match num_of a, num_of b with
  | Some x, Some y => Ok (Qcleb x y)
  | _, _ => Raise TypeError
  end.

(** One round of [for fmt in info['formats']] on [(max_height,
    available_qualities)]. *)
Definition scan_format (st : pyval * list pyval) (fmt : gmap string pyval)
    : result (pyval * list pyval) :=
  let height := dict_get fmt "height" in
  if truthy height then
    rbind (py_gt height (fst st)) (λ higher,
    Ok (if higher : bool then height else fst st, set_add height (snd st)))
  else Ok st.

Fixpoint scan_formats (st : pyval * list pyval) (fmts : list (gmap string pyval))
    : result (pyval * list pyval) :=
  match fmts with
  | [] => Ok st
  | fmt :: rest => rbind (scan_format st fmt) (λ st', scan_formats st' rest)
  end.

(** [for q in quality_order: if q <= max_height: ...; break] *)
Fixpoint first_tier (order : list Z) (max_height : pyval) : result (option Z) :=
  match order with
  | [] => Ok None
  | q :: rest =>
      rbind (py_le (PInt q) max_height) (λ fits,
      if fits : bool then Ok (Some q) else first_tier rest max_height)
  end.

(** The number a value is sorted by; the values sorted here are numbers. *)
Definition sort_key (v : pyval) : Qc := default 0%Qc (num_of v).

Definition ge_key (a b : pyval) : Prop := Qcleb (sort_key b) (sort_key a) = true.

Global Instance ge_key_dec : RelDecision ge_key.
Proof. intros a b. unfold ge_key. apply _. Defined.

(** [sorted(list(s), reverse=True) if s else []] *)
Definition sorted_desc (s : list pyval) : list pyval := merge_sort ge_key s.

(** The body of the [try] once the metadata is there. *)
Definition summarize_info (info0 : video_info) : result info_response :=
  let chosen :=
    if bool_decide (is_Some (info_entries info0))
       && bool_decide (dict_get (info_fields info0) "_type" = PStr "playlist")
    then
      match filter (λ e, entry_truthy e = true) (default [] (info_entries info0)) with
      | Some e :: _ => Some e
      | _ => None
      end
    else Some info0 in
  match chosen with
  | None => Ok (InfoError "Playlist boş veya erişilemiyor")
  | Some info =>
      rbind (scan_formats (PInt 0, []) (default [] (info_formats info))) (λ st,
      let max_height := fst st in
      let available_qualities := snd st in
      rbind (first_tier quality_order max_height) (λ tier,
      let max_quality :=
        if py_eqb max_height (PInt 0) then "best"
        else match tier with
             | Some q => str_of_int q +:+ "p"
             | None => "best"
             end in
      let fields := info_fields info in
      Ok (InfoOk (dict_get_default fields "title" (PStr "Bilinmeyen"))
                 (dict_get_default fields "thumbnail" (PStr ""))
                 (dict_get_default fields "duration" (PInt 0))
                 (dict_get_default fields "uploader" (PStr ""))
                 (dict_get_default fields "view_count" (PInt 0))
                 max_quality max_height (sorted_desc available_qualities))))
  end.

(** [try: m except Exception as e: h e], without state *)
Definition rcatch {A} (m : result A) (h : exn → result A) : result A :=
  match m with
  | Ok a => Ok a
  | Raise e => h e
  end.

Section VideoInfo.

Variable valid_netloc : string → bool.
(** yt-dlp: [extract_info(url, download=False)] *)
Variable extract_info : pyval → result video_info.
(** [str(e)] *)
Variable str_exn : exn → string.

Definition get_video_info (url : pyval) : result info_response :=
  rbind (clean_youtube_url_val valid_netloc url) (λ url,
  rcatch (rbind (extract_info url) summarize_info)
         (λ e, Ok (InfoError (str_exn e)))).

(** POST /api/info: the status code and the body. *)
Definition get_info (data : gmap string pyval) : result (nat * info_response) :=
  let url := dict_get_default data "url" (PStr "") in
  if negb (truthy url) then Ok (400%nat, InfoError "URL gerekli")
  else rbind (get_video_info url) (λ info, Ok (200%nat, info)).

End VideoInfo.

(** ** search_youtube and POST /api/search

    A decoded JSON document, as [response.json()] returns it. *)

#[warnings="-register-all"]
Inductive json :=
| JNull
| JBool (b : bool)
| JInt (z : Z)
| JFloat (q : Qc)
| JStr (s : string)
| JArr (items : list json)
| JObj (fields : gmap string json).

(** The exceptions of the search: those of the rest of the program, and the
    KeyError of a subscript. *)
Inductive search_exn :=
| Known (e : exn)
| KeyError (key : string).

Inductive sresult (A : Type) :=
| SOk (a : A)
| SRaise (e : search_exn).
Arguments SOk {A} a.
Arguments SRaise {A} e.

Definition sbind {A B} (r : sresult A) (k : A → sresult B) : sresult B :=
  match r with
  | SOk a => k a
  | SRaise e => SRaise e
  end.

(** One element of the list [search_youtube] returns: the dictionary built
    from a yt-dlp entry, or the one built from an item of the Data API. *)
Inductive search_result :=
| FlatResult (video_id title : pyval) (url : string) (duration : pyval) (thumbnail : string)
| ApiResult (video_id title : json) (url : string) (thumbnail channel description : json).

(** What [search_youtube] returns: [{'error': msg}] or the list. *)
Inductive search_outcome :=
| SearchError (msg : string)
| SearchResults (results : list search_result).

(** [v[k]] for a string key: only a dictionary can be subscripted so. *)
Definition subscript (v : json) (k : string) : sresult json :=
  match v with
  | JObj m =>
      match m !! k with
      | Some x => SOk x
      | None => SRaise (KeyError k)
      end
  | _ => SRaise (Known TypeError)
  end.

(** [for item in v]: a list gives its elements, a dictionary its keys, a
    string its characters; nothing else can be iterated. *)
Definition iterate (v : json) : sresult (list json) :=
  match v with
  | JArr l => SOk l
  | JObj m => SOk (JStr <$> (map_to_list m).*1)
  | JStr s => SOk ((λ c, JStr (String c "")) <$> list_ascii_of_string s)
  | _ => SRaise (Known TypeError)
  end.

(** [if entry]: None and the empty dictionary are falsy. *)
Definition flat_entry_truthy (e : option (gmap string pyval)) : bool :=
  match e with
  | None => false
  | Some d => negb (bool_decide (d = ∅))
  end.

Section Search.

(** The environment variable read at import. *)
Variable YOUTUBE_API_KEY : string.
(** [str(x)] of a float, and of a JSON list or dictionary *)
Variable float_str : Qc → string.
Variable container_str : json → string.
(** [str(e)] *)
Variable str_exn : search_exn → string.
(** yt-dlp: [extract_info(search_url, download=False)], as the value under
    ['entries'] when the key is there *)
Variable search_extract : string → result (option (list (option (gmap string pyval)))).
(** [requests.get(search_url, params=...).json()], by query, max_results and
    key *)
Variable api_get : pyval → pyval → string → result json.

(** [f'{v}'] *)
Definition py_str (v : pyval) : string :=
  match v with
  | PNone => "None"
  | PBool true => "True"
  | PBool false => "False"
  | PInt z => str_of_int z
  | PFloat q => float_str q
  | PStr s => s
  end.

Definition json_str (v : json) : string :=
  match v with
  | JNull => "None"
  | JBool true => "True"
  | JBool false => "False"
  | JInt z => str_of_int z
  | JFloat q => float_str q
  | JStr s => s
  | JArr _ | JObj _ => container_str v
  end.

Definition flat_result (entry : gmap string pyval) : search_result :=
  FlatResult (dict_get_default entry "id" (PStr ""))
             (dict_get_default entry "title" (PStr "Bilinmeyen"))
             ("https://www.youtube.com/watch?v=" +:+ py_str (dict_get_default entry "id" (PStr "")))
             (dict_get_default entry "duration" (PInt 0))
             ("https://img.youtube.com/vi/" +:+ py_str (dict_get_default entry "id" (PStr ""))
              +:+ "/default.jpg").

(** [for entry in info['entries']: if entry: results.append(...)] *)
Fixpoint collect_entries (entries : list (option (gmap string pyval)))
    (results : list search_result) : list search_result :=
  match entries with
  | [] => results
  | e :: rest =>
      collect_entries rest
        (match e with
         | Some d => if flat_entry_truthy e then results ++ [flat_result d] else results
         | None => results
         end)%list
  end.

(** The dictionary built from one item of the Data API, its values in the
    order they are evaluated. *)
Definition item_result (item : json) : sresult search_result :=
  sbind (sbind (subscript item "id") (λ i, subscript i "videoId")) (λ video_id,
  sbind (sbind (subscript item "snippet") (λ sn, subscript sn "title")) (λ title,
  let url := "https://www.youtube.com/watch?v=" +:+ json_str video_id in
  sbind (sbind (sbind (sbind (subscript item "snippet")
                         (λ sn, subscript sn "thumbnails"))
                  (λ th, subscript th "default"))
           (λ d, subscript d "url")) (λ thumbnail,
  sbind (sbind (subscript item "snippet") (λ sn, subscript sn "channelTitle")) (λ channel,
  sbind (sbind (subscript item "snippet") (λ sn, subscript sn "description")) (λ description,
  SOk (ApiResult video_id title url thumbnail channel description)))))).

(** [for item in ...: results.append(...)] *)
Fixpoint collect_items (items : list json) (results : list search_result)
    : sresult (list search_result) :=
  match items with
  | [] => SOk results
  | item :: rest =>
      sbind (item_result item) (λ r, collect_items rest (results ++ [r])%list)
  end.

Definition search_youtube (query max_results : pyval) : search_outcome :=
  if String.eqb YOUTUBE_API_KEY "" then
    let search_url := "ytsearch" +:+ py_str max_results +:+ ":" +:+ py_str query in
    match search_extract search_url with
    | Ok info =>
        SearchResults (match info with
                       | Some entries => collect_entries entries []
                       | None => []
                       end)
    | Raise e => SearchError (str_exn (Known e))
    end
  else
    let body :=
      sbind (match api_get query max_results YOUTUBE_API_KEY with
             | Ok data => SOk data
             | Raise e => SRaise (Known e)
             end) (λ data,
      sbind (match data with
             | JObj m => SOk (default (JArr []) (m !! "items"))
             | _ => SRaise (Known AttributeError)
             end) (λ items,
      sbind (iterate items) (λ l, collect_items l []))) in
    match body with
    | SOk results => SearchResults results
    | SRaise e => SearchError (str_exn e)
    end.

(** What POST /api/search answers with. *)
Inductive search_body :=
| SBError (msg : string)
| SBResults (results : list search_result).

Definition search (data : gmap string pyval) : nat * search_body :=
  let query := dict_get_default data "query" (PStr "") in
  let max_results := dict_get_default data "max_results" (PInt 10) in
  if negb (truthy query) then (400%nat, SBError "Arama terimi gerekli")
  else
    match search_youtube query max_results with
    | SearchError msg => (500%nat, SBError msg)
    | SearchResults results => (200%nat, SBResults results)
    end.

End Search.

(** * Notions used by the statements, and sample data *)

(** ** Engine options *)




(** ** Sample submissions and events *)


Definition mp3_submission : gmap string pyval :=
  <["url" := PStr "https://www.youtube.com/watch?v=abc123"]> (<["format" := PStr "audio"]>
    (<["file_format" := PStr "mp3"]> (<["quality" := PStr "320"]> ∅))).


Definition bad_event : gmap string pyval :=
  <["status" := PStr "downloading"]> (<["downloaded_bytes" := PNone]>
    (<["total_bytes" := PInt 1000]> ∅)).

(** ** Progress

    The percentage of the specification: [min(downloaded/total * 100, 99.9)]. *)
Definition claimed_percent (downloaded total : Qc) : Qc :=
  py_min (downloaded / total * Qc_100)%Qc Qc_999_10.

(** The [progress_data] built from event [d] with a given percent. *)
Definition event_snapshot (percent : pyval) (d : gmap string pyval) : snapshot :=
  downloading_snapshot percent (event_downloaded d) (event_total d)
    (dict_get_default d "speed" (PInt 0)) (dict_get_default d "eta" (PInt 0)).

Definition downloading_event (downloaded total : Z) : gmap string pyval :=
  <["status" := PStr "downloading"]> (<["downloaded_bytes" := PInt downloaded]>
    (<["total_bytes" := PInt total]> (<["speed" := PInt 2048]> (<["eta" := PInt 7]> ∅)))).

Definition finished_event : gmap string pyval :=
  <["status" := PStr "finished"]> (<["downloaded_bytes" := PInt 1000]> ∅).

(** The number stored under ['percent'], when there is one. *)
Definition percent_value (s : snapshot) : option Qc := s_percent s ≫= num_of.

Definition in_progress (s : snapshot) : bool :=
  String.eqb (s_status s) "downloading" || String.eqb (s_status s) "processing".

(** The reading of the specification: between two successive snapshots that
    are both downloading or processing, percent does not decrease. *)
Definition percent_non_decreasing (ws : list snapshot) : Prop :=
  ∀ (i : nat) s1 s2 p1 p2,
    ws !! i = Some s1 → ws !! S i = Some s2 →
    in_progress s1 = true → in_progress s2 = true →
    percent_value s1 = Some p1 → percent_value s2 = Some p2 →
    (p1 ≤ p2)%Qc.

(** What a write of the hook for job [id] looks like. *)
Definition capped (id : string) (entry : string * snapshot) : Prop :=
  entry.1 = id ∧ in_progress entry.2 = true
  ∧ ∃ p, percent_value entry.2 = Some p ∧ (p ≤ Qc_999_10)%Qc.

(** What the last write of the job thread looks like. *)
Definition final_write (id : string) (entry : string * snapshot) : Prop :=
  entry.1 = id
  ∧ ((s_status entry.2 = "completed" ∧ s_percent entry.2 = Some (PInt 100))
     ∨ (s_status entry.2 = "error" ∧ s_percent entry.2 = None)).

(** A run of the whole pipeline: the engine reports the transfer complete
    (1000 of 1000 bytes), then finished, and returns. *)
Definition sample_engine (opts : ydl_opts) (url : pyval) : engine_run :=
  {| events := [downloading_event 400 1000; downloading_event 1000 1000; finished_event];
     produced := [("/tmp/id1.mp3", {| content := []; deletable := true |})];
     outcome := Ok (<["title" := PStr "Song"]> ∅, "/tmp/id1.webm") |}.

Definition sample_run : world :=
  snd (download_video_with_progress "/tmp" sample_engine (λ _, "failed") (λ _, false)
         "id1" (PStr "https://www.youtube.com/watch?v=abc123") (PStr "audio") (PStr "mp3")
         (PStr "320") empty_world).

(** ** Delivery and cleanup

    What makes a job deliverable: a completed entry whose file is on disk. *)
Definition deliverable (w : world) (id : string) (st : snapshot) (p : string) (f : file) : Prop :=
  download_status w !! id = Some st ∧ s_status st = "completed"
  ∧ s_filepath st = Some p ∧ p ≠ "" ∧ files w !! p = Some f.

(** Nothing but the log of file-system calls differs. *)
Definition same_state (w w' : world) : Prop :=
  download_status w' = download_status w ∧ files w' = files w
  ∧ threads w' = threads w ∧ stdout w' = stdout w ∧ writes w' = writes w.

(** What a lookup of [id] observes in [w] refers to a file on disk. *)
Definition no_dangling_lookup (w : world) (id : string) : Prop :=
  ∀ st p, download_status w !! id = Some st → s_filepath st = Some p →
          is_Some (files w !! p).

(** Interleavings of the cleanup thread with status requests: a schedule
    says when the thread makes its next step and when a request is served.
    Each request yields what the client sees (state and path) and whether
    the path it sees is that of a file on disk at that moment. *)
Inductive sched_event := StepCleanup | StatusLookup.

Definition observation : Type := string * option string * bool.

Definition observe (w : world) (st : snapshot) : observation :=
  (s_status st, s_filepath st,
   match s_filepath st with
   | Some p => bool_decide (is_Some (files w !! p))
   | None => true
   end).

Fixpoint run_schedule (filepath id : string) (sched : list sched_event)
    (pc : cleanup_pc) (w : world) : list observation :=
  match sched with
  | [] => []
  | StepCleanup :: rest =>
      match cleanup_step filepath id pc w with
      | (Ok pc', w') => run_schedule filepath id rest pc' w'
      | (Raise _, w') => run_schedule filepath id rest PcDone w'
      end
  | StatusLookup :: rest =>
      match download_status_endpoint id w with
      | (Ok (Json _ (BStatus st)), w') =>
          observe w st :: run_schedule filepath id rest pc w'
      | (_, w') => run_schedule filepath id rest pc w'
      end
  end.

(** The sample job delivered: the fetch is answered with the stream, the
    stream is read to its end, and the cleanup thread has been started. *)
Definition delivered_run : world :=
  snd (generate "/tmp/id1.mp3" "id1" None (snd (download_file "id1" sample_run))).

(** The same store, with an artifact that cannot be deleted. *)
Definition protected_run : world :=
  {| download_status := download_status delivered_run;
     files := <["/tmp/id1.mp3" := {| content := []; deletable := false |}]> ∅;
     threads := []; stdout := []; io_log := []; writes := [] |}.

(** ** Format selectors

    The syntax of the engine's format strings, as far as the code uses it: a
    selector is a list of alternatives separated by [/], an alternative merges
    streams with [+], a stream is [bestvideo], [bestaudio] or [best] followed
    by filters in brackets. *)




















(** The value of a decimal numeral read left to right from [acc]. *)
Fixpoint uint_val (acc : Z) (d : Decimal.uint) : Z :=
  match d with
  | Decimal.Nil => acc
  | Decimal.D0 l => uint_val (10 * acc + 0) l
  | Decimal.D1 l => uint_val (10 * acc + 1) l
  | Decimal.D2 l => uint_val (10 * acc + 2) l
  | Decimal.D3 l => uint_val (10 * acc + 3) l
  | Decimal.D4 l => uint_val (10 * acc + 4) l
  | Decimal.D5 l => uint_val (10 * acc + 5) l
  | Decimal.D6 l => uint_val (10 * acc + 6) l
  | Decimal.D7 l => uint_val (10 * acc + 7) l
  | Decimal.D8 l => uint_val (10 * acc + 8) l
  | Decimal.D9 l => uint_val (10 * acc + 9) l
  end.

(** The quality [<N>p]. *)
Definition quality_np (n : Z) : pyval := PStr (str_of_int n +:+ "p").


(** ** Video ids

    Ids on which a second cleaning changes nothing: none of the characters
    [#], [&], [%], [+], TAB, LF, CR, and no occurrence of "youtu.be". *)
Definition safe_id_char (c : ascii) : bool :=
  negb (char_in c "#&%+") && negb (unsafe_url_byte c).

Definition safe_id (s : string) : Prop :=
  all_chars safe_id_char s = true ∧ contains "youtu.be" s = false.

(** Any character but [c]. *)
Definition is_not (c : ascii) : ascii → bool := λ a, negb (Ascii.eqb a c).

(** The characters YouTube ids are made of. *)
Definition plain_id_char (c : ascii) : bool :=
  is_alpha c || is_digit c || Ascii.eqb c "-" || Ascii.eqb c "_".

(** The extension [final_filename] aims at, given the lower-cased
    file_format. *)
Definition wanted_extension (format_type : pyval) (ext : string) : string :=
  if decide (format_type = PStr "audio")
  then (if String.eqb ext "wav" then ".wav" else ".mp3")
  else "." +:+ ext.

(** ** Video metadata

    Strictly descending, as numbers. *)
Definition gt_key (a b : pyval) : Prop := (sort_key b < sort_key a)%Qc.

(** What the scan of the formats keeps true of [(max_height,
    available_qualities)], [seen] being the formats scanned so far. *)
Record scan_inv (seen : list (gmap string pyval)) (st : pyval * list pyval) : Prop := {
  inv_max_num : is_Some (num_of st.1);
  inv_max_nonneg : (0 ≤ sort_key st.1)%Qc;
  inv_max_in : st.1 = PInt 0 ∨ st.1 ∈ st.2;
  inv_elems : ∀ v, v ∈ st.2 →
      is_Some (num_of v) ∧ truthy v = true ∧ (sort_key v ≤ sort_key st.1)%Qc
      ∧ ∃ fmt, fmt ∈ seen ∧ dict_get fmt "height" = v;
  inv_nodup : NoDup (sort_key <$> st.2);
  inv_cover : ∀ fmt, fmt ∈ seen → truthy (dict_get fmt "height") = true →
      ∃ v, v ∈ st.2 ∧ py_eqb (dict_get fmt "height") v = true
}.

(** Sample metadata: a video with five formats, and a playlist of it. *)
Definition sample_formats : list (gmap string pyval) :=
  [ <["height" := PInt 720]> ∅; <["height" := PInt 1080]> ∅; <["height" := PNone]> ∅;
    <["height" := PInt 720]> ∅; <["height" := PInt 360]> ∅ ].

Definition sample_fields : gmap string pyval := <["title" := PStr "Song"]> ∅.

Definition sample_info : video_info := VideoInfo sample_fields (Some sample_formats) None.

Definition playlist_fields : gmap string pyval := <["_type" := PStr "playlist"]> ∅.

Definition sample_playlist : video_info :=
  VideoInfo playlist_fields None
    (Some [None; Some (VideoInfo sample_fields (Some sample_formats) (Some []))]).

(** ** Search

    The entries a search keeps, in order. *)
Definition truthy_entries (entries : list (option (gmap string pyval)))
    : list (gmap string pyval) :=
  omap (λ e, if flat_entry_truthy e then e else None) entries.

Definition result_url (r : search_result) : string :=
  match r with
  | FlatResult _ _ url _ _ => url
  | ApiResult _ _ url _ _ _ => url
  end.

(** An item of the Data API with every field the search reads. *)
Definition complete_item (item video_id title thumbnail channel description : json) : Prop :=
  ∃ m i sn th d,
    item = JObj m
    ∧ m !! "id" = Some (JObj i) ∧ i !! "videoId" = Some video_id
    ∧ m !! "snippet" = Some (JObj sn) ∧ sn !! "title" = Some title
    ∧ sn !! "thumbnails" = Some (JObj th) ∧ th !! "default" = Some (JObj d)
    ∧ d !! "url" = Some thumbnail
    ∧ sn !! "channelTitle" = Some channel
    ∧ sn !! "description" = Some description.

(** Sample search data. *)
Definition sample_entry : gmap string pyval :=
  <["id" := PStr "abc123"]> (<["title" := PStr "Song"]> ∅).

Definition sample_query : gmap string pyval := <["query" := PStr "song"]> ∅.

Definition sample_search_extract (search_url : string)
    : result (option (list (option (gmap string pyval)))) :=
  Ok (Some [None; Some sample_entry; Some ∅]).

Definition broken_item : json := JObj (<["id" := JStr "abc123"]> ∅).

Definition sample_api_fields : gmap string json := <["items" := JArr [broken_item]]> ∅.

Definition sample_api_get (query max_results : pyval) (key : string) : result json :=
  Ok (JObj sample_api_fields).

(** A submission whose URL is a number. *)
Definition numeric_url_submission : gmap string pyval := <["url" := PInt 5]> ∅.

(** What a job for [id] leaves alone between two worlds. *)
Definition job_frame (id : string) (w w' : world) : Prop :=
  (∀ id', id' ≠ id → download_status w' !! id' = download_status w !! id')
  ∧ threads w' = threads w
  ∧ io_log w' = io_log w.

(** The short link of a video. *)
Definition short_link (id : string) : string := "https://youtu.be/" +:+ id.

(** * Properties *)

Ltac unfold_monad :=
  unfold try_except, try_finally, bind, lift, ret, raise, store_get, store_set,
    store_del, print, io, spawn, get_files, set_files.

(** ** Strings *)

Lemma append_cons (x : ascii) (a b : string) : String x a +:+ b = String x (a +:+ b).
Proof. reflexivity. Qed.

Lemma append_empty_l (a : string) : "" +:+ a = a.
Proof. reflexivity. Qed.

Lemma append_assoc (a b c : string) : (a +:+ b) +:+ c = a +:+ (b +:+ c).
Proof.
  induction a as [| x a IH]; [reflexivity |].
  rewrite !append_cons. f_equal. exact IH.
Qed.

Lemma append_empty_r (a : string) : a +:+ "" = a.
Proof.
  induction a as [| x a IH]; [reflexivity |].
  rewrite append_cons. f_equal. exact IH.
Qed.


Lemma all_chars_weaken (p q : ascii → bool) (s : string) :
  (∀ c, p c = true → q c = true) → all_chars p s = true → all_chars q s = true.
Proof.
  intros Hpq. induction s as [| a s IH]; [reflexivity |].
  simpl. rewrite !andb_true_iff. intros [Ha Hs]. split; [by apply Hpq | by apply IH].
Qed.

Lemma all_chars_forallb (p : ascii → bool) (s : string) :
  all_chars p s = forallb p (list_ascii_of_string s).
Proof. induction s as [| a s IH]; [reflexivity |]. simpl. by rewrite IH. Qed.

Lemma all_chars_char_in (p : ascii → bool) (s : string) (c : ascii) :
  all_chars p s = true → char_in c s = true → p c = true.
Proof.
  unfold char_in. induction s as [| a s IH]; [discriminate |].
  simpl. rewrite andb_true_iff, orb_true_iff. intros [Ha Hs] [Hc | Hc].
  - apply Ascii.eqb_eq in Hc. by subst.
  - by apply IH.
Qed.

Lemma contains_chars (needle s : string) (c : ascii) :
  contains needle s = true → char_in c needle = true → char_in c s = true.
Proof.
  intros Hc Hin.
  assert (Hpre : ∀ p t, startswith t p = true → char_in c p = true → char_in c t = true).
  { clear. induction p as [| a p IH]; intros t Hp Hin; [discriminate |].
    destruct t as [| b t]; [discriminate |].
    simpl in Hp. apply andb_true_iff in Hp as [Hab Hp].
    apply Ascii.eqb_eq in Hab. subst b.
    unfold char_in in *. simpl in *. apply orb_true_iff in Hin as [Hin | Hin].
    - by rewrite Hin.
    - rewrite (IH t Hp Hin). apply orb_true_r. }
  induction s as [| b s IH].
  - simpl in Hc. rewrite orb_false_r in Hc. by apply (Hpre needle).
  - simpl in Hc. apply orb_true_iff in Hc as [Hc | Hc]; [by apply (Hpre needle) |].
    unfold char_in in *. simpl. rewrite (IH Hc). apply orb_true_r.
Qed.

Lemma rev_str_involutive (s : string) : rev_str (rev_str s) = s.
Proof.
  unfold rev_str.
  by rewrite list_ascii_of_string_of_list_ascii, rev_involutive,
    string_of_list_ascii_of_string.
Qed.

Lemma all_chars_rev_str (p : ascii → bool) (s : string) :
  all_chars p (rev_str s) = all_chars p s.
Proof.
  unfold rev_str. rewrite !all_chars_forallb, list_ascii_of_string_of_list_ascii.
  induction (list_ascii_of_string s) as [| a l IH]; [reflexivity |].
  simpl. rewrite forallb_app, IH. simpl. rewrite andb_true_r. apply andb_comm.
Qed.

Lemma lstrip_none (bad : ascii → bool) (s : string) :
  all_chars (λ c, negb (bad c)) s = true → lstrip bad s = s.
Proof.
  destruct s as [| a s]; [reflexivity |].
  simpl. rewrite andb_true_iff, negb_true_iff. by intros [-> _].
Qed.

Lemma strip_none (s : string) :
  all_chars (λ c, negb (is_space c)) s = true → strip s = s.
Proof.
  intros H. unfold strip. rewrite (lstrip_none _ s H).
  rewrite lstrip_none by (by rewrite all_chars_rev_str).
  apply rev_str_involutive.
Qed.

Lemma remove_chars_none (bad : ascii → bool) (s : string) :
  all_chars (λ a, negb (bad a)) s = true → remove_chars bad s = s.
Proof.
  induction s as [| a s IH]; [reflexivity |].
  simpl. rewrite andb_true_iff, negb_true_iff. intros [-> Hs]. by rewrite IH.
Qed.

Lemma partition_none (c : ascii) (s : string) :
  all_chars (is_not c) s = true → partition c s = (s, None).
Proof.
  induction s as [| a s IH]; [reflexivity |].
  simpl. unfold is_not at 1. rewrite andb_true_iff, negb_true_iff.
  intros [-> Hs]. by rewrite IH.
Qed.

Lemma split_on_none (c : ascii) (s : string) :
  all_chars (is_not c) s = true → split_on c s = [s].
Proof.
  induction s as [| a s IH]; [reflexivity |].
  simpl. unfold is_not at 1. rewrite andb_true_iff, negb_true_iff.
  intros [-> Hs]. by rewrite IH.
Qed.

Lemma replace_plus_none (new s : string) :
  all_chars (is_not "+") s = true → replace "+" new s = s.
Proof.
  unfold replace. induction s as [| a s IH]; [reflexivity |].
  simpl. unfold is_not at 1. rewrite andb_true_iff, negb_true_iff.
  intros [Ha Hs]. rewrite Ha. simpl. by rewrite IH.
Qed.

Lemma replace_trailing_p (s : string) :
  all_chars (is_not "p") s = true → replace "p" "" (s +:+ "p") = s.
Proof.
  unfold replace. induction s as [| a s IH]; [reflexivity |].
  rewrite append_cons. simpl. unfold is_not at 1.
  rewrite andb_true_iff, negb_true_iff. intros [-> Hs]. simpl. by rewrite IH.
Qed.

Lemma unquote_none (s : string) :
  all_chars (is_not "%") s = true → unquote s = s.
Proof.
  induction s as [| a s IH]; [reflexivity |].
  cbn [all_chars unquote]. unfold is_not at 1. rewrite andb_true_iff, negb_true_iff.
  intros [-> Hs]. by rewrite IH.
Qed.

(** ** Audio bitrate and the choice of branch *)








(** ** Submission *)



(** ** The progress hook *)

Lemma progress_hook_body_raise (download_id : string) (d : gmap string pyval)
    (w w1 : world) (e : exn) :
  progress_hook_body download_id d w = (Raise e, w1) → w1 = w.
Proof.
  unfold progress_hook_body.
  destruct (decide (dict_get d "status" = PStr "downloading")).
  - unfold bind, lift.
    destruct (total_is_positive (event_total d)) as [[|] |]; simpl.
    + destruct (py_truediv _ _); simpl; [discriminate | congruence].
    + discriminate.
    + congruence.
  - destruct (decide (dict_get d "status" = PStr "finished")); discriminate.
Qed.

Lemma progress_hook_ok (download_id : string) (d : gmap string pyval) (w : world) :
  fst (progress_hook download_id d w) = Ok ().
Proof.
  unfold progress_hook, try_except.
  destruct (progress_hook_body download_id d w) as [[[] | e] w1]; reflexivity.
Qed.

(** C8: the hook returns normally on every event and in every world; when
    its body raises, nothing has been written, the exception is printed and
    the hook still returns, so a whole sequence of events is processed
    without an exception reaching the engine. *)
Theorem progress_hook_never_raises (download_id : string) (d : gmap string pyval)
    (w : world) :
  (∃ w', progress_hook download_id d w = (Ok (), w')
         ∧ ∀ e w1, progress_hook_body download_id d w = (Raise e, w1) →
                   w' = snd (print (LogHookError download_id e) w)
                   ∧ download_status w' = download_status w)
  ∧ ∀ evs, fst (run_hooks download_id evs w) = Ok ().
Proof.
  split.
  - exists (snd (progress_hook download_id d w)). split.
    + rewrite <- (progress_hook_ok download_id d w) at 1.
      by destruct (progress_hook download_id d w).
    + intros e w1 Hbody. pose proof (progress_hook_body_raise _ _ _ _ _ Hbody) as ->.
      unfold progress_hook, try_except. rewrite Hbody. split; reflexivity.
  - intros evs. revert w. induction evs as [| d' evs IH]; intros w; [reflexivity |].
    simpl. unfold bind.
    pose proof (progress_hook_ok download_id d' w) as Hd.
    destruct (progress_hook download_id d' w) as [[[] | e] w1]; simpl in Hd;
      [apply IH | discriminate].
Qed.

Lemma progress_hook_never_raises_bad_event :
  progress_hook_body "job" bad_event empty_world = (Raise TypeError, empty_world)
  ∧ ∃ w', progress_hook "job" bad_event empty_world = (Ok (), w')
          ∧ stdout w' = [LogHookError "job" TypeError]
          ∧ download_status w' = ∅.
Proof.
  split; [reflexivity |].
  destruct (progress_hook_never_raises "job" bad_event empty_world)
    as [(w' & Hrun & Hcaught) _].
  exists w'. split; [exact Hrun |].
  destruct (Hcaught TypeError empty_world eq_refl) as [-> Hst].
  split; reflexivity.
Defined.

(** ** Percent arithmetic *)

Lemma Qcltb_lt (x y : Qc) : Qcltb x y = true ↔ (x < y)%Qc.
Proof.
  unfold Qcltb, Qclt. rewrite negb_true_iff, <- not_true_iff_false, Qle_bool_iff.
  split; [apply Qnot_le_lt | apply Qlt_not_le].
Qed.

Lemma Qcltb_ge (x y : Qc) : Qcltb x y = false ↔ (y ≤ x)%Qc.
Proof.
  unfold Qcltb, Qcle. rewrite negb_false_iff, Qle_bool_iff. reflexivity.
Qed.

Lemma Qeq_bool_Qc_0 (t : Qc) : Qeq_bool t 0 = true ↔ t = 0%Qc.
Proof.
  rewrite Qeq_bool_iff. split.
  - intros H. by apply Qc_is_canon.
  - intros ->. reflexivity.
Qed.

Lemma truthy_num (v : pyval) (t : Qc) :
  num_of v = Some t → truthy v = negb (Qeq_bool t 0).
Proof.
  destruct v as [| [|] | z | q | s]; simpl; intros [= <-]; try reflexivity.
  unfold Qeq_bool. simpl. rewrite Z.mul_1_r.
  destruct z; reflexivity.
Qed.

Lemma Qeq_bool_pos (t : Qc) : (0 < t)%Qc → Qeq_bool t 0 = false.
Proof.
  intros Ht. destruct (Qeq_bool t 0) eqn:E; [| reflexivity].
  apply Qeq_bool_Qc_0 in E. subst t. by apply Qclt_not_eq in Ht.
Qed.

Lemma py_truediv_pos (a b : pyval) (x t : Qc) :
  num_of a = Some x → num_of b = Some t → (0 < t)%Qc → py_truediv a b = Ok (x / t)%Qc.
Proof.
  intros Ha Hb Ht. unfold py_truediv. by rewrite Ha, Hb, (Qeq_bool_pos t Ht).
Qed.

Lemma total_is_positive_true (v : pyval) (t : Qc) :
  num_of v = Some t → (0 < t)%Qc → total_is_positive v = Ok true.
Proof.
  intros Hv Ht. unfold total_is_positive, py_gt0.
  rewrite (truthy_num v t Hv), Hv.
  destruct (Qeq_bool t 0) eqn:E.
  - apply Qeq_bool_Qc_0 in E. subst t. by apply Qclt_not_eq in Ht.
  - simpl. f_equal. by apply Qcltb_lt.
Qed.


Lemma progress_hook_downloading (download_id : string) (d : gmap string pyval) (w : world)
    (pos : bool) (percent : pyval) :
  dict_get d "status" = PStr "downloading" →
  total_is_positive (event_total d) = Ok pos →
  (if pos then
     rbind (py_truediv (event_downloaded d) (event_total d))
           (λ q, Ok (PFloat (py_min (q * Qc_100)%Qc Qc_999_10)))
   else Ok (PInt 0)) = Ok percent →
  progress_hook download_id d w =
    (Ok (), snd (print (LogProgress download_id percent)
                   (snd (store_set download_id (event_snapshot (py_round2 percent) d) w)))).
Proof.
  intros Hst Hpos Hpc. unfold progress_hook, try_except, progress_hook_body.
  rewrite decide_True by exact Hst.
  unfold bind, lift, ret. rewrite Hpos.
  destruct pos.
  - destruct (py_truediv (event_downloaded d) (event_total d)) as [q |];
      simpl in Hpc; [| discriminate].
    injection Hpc as <-. reflexivity.
  - injection Hpc as <-. reflexivity.
Qed.




(** ** Rounding is monotone *)

Lemma round_half_even_mono (p q : Q) :
  (p <= q)%Q → round_half_even p ≤ round_half_even q.
Proof.
  destruct p as [n1 d1], q as [n2 d2]. unfold Qle, round_half_even. simpl.
  intros Hle.
  pose proof (Z.div_mod n1 (Z.pos d1) ltac:(lia)) as E1.
  pose proof (Z.div_mod n2 (Z.pos d2) ltac:(lia)) as E2.
  pose proof (Z.mod_pos_bound n1 (Z.pos d1) ltac:(lia)) as B1.
  pose proof (Z.mod_pos_bound n2 (Z.pos d2) ltac:(lia)) as B2.
  set (f1 := n1 / Z.pos d1) in *. set (m1 := n1 mod Z.pos d1) in *.
  set (f2 := n2 / Z.pos d2) in *. set (m2 := n2 mod Z.pos d2) in *.
  assert (Hf : f1 ≤ f2).
  { destruct (Z.le_gt_cases f1 f2) as [? | Hgt]; [done | exfalso].
    assert (Z.pos d1 * Z.pos d2 * (f2 + 1) ≤ Z.pos d1 * Z.pos d2 * f1)
      by (apply Z.mul_le_mono_nonneg_l; lia).
    assert (m2 * Z.pos d1 < Z.pos d2 * Z.pos d1)
      by (apply Z.mul_lt_mono_pos_r; lia).
    assert (0 ≤ m1 * Z.pos d2) by (apply Z.mul_nonneg_nonneg; lia).
    nia. }
  destruct (Z.eq_dec f1 f2) as [Heq | Hne].
  - rewrite <- Heq in *.
    assert (Hm : m1 * Z.pos d2 ≤ m2 * Z.pos d1) by nia.
    destruct (Z.ltb_spec (2 * m1) (Z.pos d1)) as [L1 | L1].
    + repeat match goal with |- context [if ?b then _ else _] => destruct b end; lia.
    + destruct (Z.ltb_spec (Z.pos d1) (2 * m1)) as [G1 | G1].
      * assert (Z.pos d2 < 2 * m2) by nia.
        destruct (Z.ltb_spec (2 * m2) (Z.pos d2)); [lia |].
        destruct (Z.ltb_spec (Z.pos d2) (2 * m2)); lia.
      * assert (Z.pos d2 ≤ 2 * m2) by nia.
        destruct (Z.ltb_spec (2 * m2) (Z.pos d2)); [lia |].
        destruct (Z.ltb_spec (Z.pos d2) (2 * m2)); destruct (Z.even f1); lia.
  - assert (f1 + 1 ≤ f2) by lia.
    repeat match goal with |- context [if ?b then _ else _] => destruct b end; lia.
Qed.

Lemma Q2Qc_le (a b : Q) : (a <= b)%Q → (Q2Qc a ≤ Q2Qc b)%Qc.
Proof.
  intros H. unfold Qcle. simpl. by rewrite !Qred_correct.
Qed.

Lemma round2_mono (x y : Qc) : (x ≤ y)%Qc → (round2 x ≤ round2 y)%Qc.
Proof.
  intros H. unfold round2. apply Q2Qc_le.
  assert (Hr : round_half_even (x * (100 # 1)) ≤ round_half_even (y * (100 # 1))).
  { apply round_half_even_mono. apply Qmult_le_compat_r; [exact H | discriminate]. }
  unfold Qle. simpl. lia.
Qed.

Lemma py_min_le_r (x y : Qc) : (py_min x y ≤ y)%Qc.
Proof.
  unfold py_min. destruct (Qcltb y x) eqn:E.
  - apply Qcle_refl.
  - by apply Qcltb_ge in E.
Qed.

Lemma py_min_mono (x1 x2 y : Qc) : (x1 ≤ x2)%Qc → (py_min x1 y ≤ py_min x2 y)%Qc.
Proof.
  intros H. unfold py_min.
  destruct (Qcltb y x1) eqn:E1, (Qcltb y x2) eqn:E2.
  - apply Qcle_refl.
  - apply Qcltb_lt in E1. apply Qcltb_ge in E2.
    exfalso. apply (Qclt_not_le _ _ E1). by eapply Qcle_trans.
  - by apply Qcltb_ge in E1.
  - exact H.
Qed.

Lemma claimed_percent_mono (x1 x2 t : Qc) :
  (0 < t)%Qc → (x1 ≤ x2)%Qc → (claimed_percent x1 t ≤ claimed_percent x2 t)%Qc.
Proof.
  intros Ht Hx. unfold claimed_percent. apply py_min_mono.
  apply Qcmult_le_compat_r; [| discriminate].
  unfold Qcdiv. apply Qcmult_le_compat_r; [exact Hx |].
  apply Qclt_le_weak. by apply Qcinv_pos.
Qed.

Lemma round2_capped (x : Qc) : (round2 (py_min x Qc_999_10) ≤ Qc_999_10)%Qc.
Proof.
  assert (E : round2 Qc_999_10 = Qc_999_10) by (apply Qc_is_canon; reflexivity).
  rewrite <- E at 2. apply round2_mono, py_min_le_r.
Qed.

(** ** Percent over the life of a job *)

Lemma progress_hook_writes (id : string) (d : gmap string pyval) (w : world) :
  ∃ hw, writes (snd (progress_hook id d w)) = (writes w ++ hw)%list ∧ Forall (capped id) hw.
Proof.
  unfold progress_hook, try_except, progress_hook_body.
  destruct (decide (dict_get d "status" = PStr "downloading")).
  - unfold bind, lift, ret.
    destruct (total_is_positive (event_total d)) as [[|] |]; simpl.
    + destruct (py_truediv _ _) as [q |]; simpl.
      * eexists. split; [reflexivity |]. constructor; [| constructor].
        split; [reflexivity |]. split; [reflexivity |].
        eexists. split; [reflexivity |]. apply round2_capped.
      * exists []. by rewrite app_nil_r.
    + eexists. split; [reflexivity |]. constructor; [| constructor].
      split; [reflexivity |]. split; [reflexivity |].
      eexists. split; [reflexivity |]. discriminate.
    + exists []. by rewrite app_nil_r.
  - destruct (decide (dict_get d "status" = PStr "finished")); simpl.
    + eexists. split; [reflexivity |]. constructor; [| constructor].
      split; [reflexivity |]. split; [reflexivity |].
      eexists. split; [reflexivity |]. discriminate.
    + exists []. by rewrite app_nil_r.
Qed.

Lemma run_hooks_writes (id : string) (evs : list (gmap string pyval)) (w : world) :
  ∃ w1 hw, run_hooks id evs w = (Ok (), w1)
           ∧ writes w1 = (writes w ++ hw)%list ∧ Forall (capped id) hw
           ∧ files w1 = files w.
Proof.
  revert w. induction evs as [| d evs IH]; intros w.
  - exists w, []. simpl. rewrite app_nil_r. by repeat split.
  - simpl. unfold bind.
    destruct (progress_hook_writes id d w) as (hw1 & Hw1 & Hc1).
    pose proof (progress_hook_ok id d w) as Hok.
    assert (Hf : files (snd (progress_hook id d w)) = files w).
    { unfold progress_hook, try_except, progress_hook_body.
      destruct (decide _); [| destruct (decide _); reflexivity].
      unfold bind, lift, ret.
      destruct (total_is_positive _) as [[|] |]; simpl; try reflexivity.
      destruct (py_truediv _ _); reflexivity. }
    destruct (progress_hook id d w) as [[[] | e] w0]; simpl in *; [| discriminate].
    destruct (IH w0) as (w1 & hw & Hrun & Hw & Hc & Hfs).
    exists w1, (hw1 ++ hw)%list. split; [exact Hrun |].
    split; [by rewrite Hw, Hw1, app_assoc |].
    split; [by apply Forall_app | congruence].
Qed.

Section JobRun.

Variable temp_dir : string.
Variable engine : ydl_opts → pyval → engine_run.
Variable str_exn : exn → string.
Variable valid_netloc : string → bool.

Local Abbreviation run_job :=
  (download_video_with_progress temp_dir engine str_exn valid_netloc).

(** The writes of one run of the job thread: those of the hook, each for
    this job, downloading or processing and at most 99.9, then at most one
    last write, completed at 100 or error. *)
Lemma job_writes (id : string) (url ft ff q : pyval) (w : world) :
  ∃ hw tail,
    writes (snd (run_job id url ft ff q w)) = (writes w ++ hw ++ tail)%list
    ∧ Forall (capped id) hw
    ∧ (tail = [] ∨ ∃ final, tail = [final] ∧ final_write id final).
Proof.
  unfold download_video_with_progress. unfold bind at 1. unfold lift at 1.
  destruct (clean_youtube_url_val valid_netloc url) as [u | e].
  2: { exists [], []. simpl. rewrite app_nil_r. by repeat split; try left. }
  unfold try_except, bind, lift, get_files, set_files.
  destruct (build_ydl_opts _ _ _ _ _) as [opts | e].
  2: { exists [], [(id, error_snapshot (str_exn e))]. simpl.
       repeat split; [constructor |]. right. eexists. split; [reflexivity |].
       split; [reflexivity |]. right. by split. }
  destruct (run_hooks_writes id (events (engine opts u)) w) as (w1 & hw & Hrun & Hw & Hc & _).
  rewrite Hrun. simpl.
  destruct (outcome (engine opts u)) as [[info filename] | e]; simpl.
  - destruct (final_filename ft ff filename) as [fname | e]; simpl.
    + exists hw. eexists. rewrite Hw, <- app_assoc. split; [reflexivity |].
      split; [exact Hc |]. right. eexists. split; [reflexivity |].
      split; [reflexivity |]. left. by split.
    + exists hw. eexists. rewrite Hw, <- app_assoc. split; [reflexivity |].
      split; [exact Hc |]. right. eexists. split; [reflexivity |].
      split; [reflexivity |]. right. by split.
  - exists hw. eexists. rewrite Hw, <- app_assoc. split; [reflexivity |].
    split; [exact Hc |]. right. eexists. split; [reflexivity |].
    split; [reflexivity |]. right. by split.
Qed.

(** C1: in a run of the job thread every snapshot the hook writes is
    downloading or processing with percent at most 99.9, and the last write,
    when the job completes, has percent exactly 100; between two downloading
    events with the same positive total, percent does not decrease when the
    downloaded byte count does not. *)
Theorem percent_over_job (id : string) (url ft ff q : pyval) (w : world) :
  (∃ hw tail,
     writes (snd (run_job id url ft ff q w)) = (writes w ++ hw ++ tail)%list
     ∧ Forall (capped id) hw
     ∧ (tail = [] ∨ ∃ final, tail = [final] ∧ final_write id final))
  ∧ (∀ d1 d2 w1 w2 t x1 x2,
       dict_get d1 "status" = PStr "downloading" →
       dict_get d2 "status" = PStr "downloading" →
       num_of (event_total d1) = Some t → num_of (event_total d2) = Some t →
       (0 < t)%Qc →
       num_of (event_downloaded d1) = Some x1 → num_of (event_downloaded d2) = Some x2 →
       (x1 ≤ x2)%Qc →
       ∃ s1 s2 p1 p2,
         download_status (snd (progress_hook id d1 w1)) !! id = Some s1
         ∧ download_status (snd (progress_hook id d2 w2)) !! id = Some s2
         ∧ percent_value s1 = Some p1 ∧ percent_value s2 = Some p2
         ∧ (p1 ≤ p2)%Qc).
Proof.
  split; [apply job_writes |].
  intros d1 d2 w1 w2 t x1 x2 Hs1 Hs2 Ht1 Ht2 Hpos Hx1 Hx2 Hle.
  assert (Hrun : ∀ d x w0,
             dict_get d "status" = PStr "downloading" →
             num_of (event_total d) = Some t → num_of (event_downloaded d) = Some x →
             download_status (snd (progress_hook id d w0)) !! id =
               Some (event_snapshot (PFloat (round2 (claimed_percent x t))) d)).
  { intros d x w0 Hs Ht Hx.
    rewrite (progress_hook_downloading id d w0 true
               (PFloat (claimed_percent x t)) Hs (total_is_positive_true _ _ Ht Hpos)).
    - simpl. apply lookup_insert_eq.
    - by rewrite (py_truediv_pos _ _ x t Hx Ht Hpos). }
  do 4 eexists.
  split; [apply (Hrun d1 x1 w1 Hs1 Ht1 Hx1) |].
  split; [apply (Hrun d2 x2 w2 Hs2 Ht2 Hx2) |].
  split; [reflexivity |]. split; [reflexivity |].
  apply round2_mono. by apply claimed_percent_mono.
Qed.

End JobRun.

Lemma sample_run_writes :
  map (λ e, (s_status e.2, this <$> percent_value e.2)) (writes sample_run) =
    [ ("downloading", Some (40 # 1)); ("downloading", Some (999 # 10));
      ("processing", Some (95 # 1)); ("completed", Some (100 # 1)) ].
Proof. vm_compute. reflexivity. Qed.

(** In an ordinary successful run the percent falls from 99.9 to 95 when the
    engine reports the transfer finished. *)
Lemma percent_drops_when_finished :
  ¬ percent_non_decreasing (map snd (writes sample_run)).
Proof.
  intros H.
  pose proof (H 1%nat _ _ _ _ eq_refl eq_refl eq_refl eq_refl eq_refl eq_refl) as Hle.
  vm_compute in Hle. by apply Hle.
Qed.

Lemma percent_over_job_sample :
  ∃ s1 s2 p1 p2,
    download_status (snd (progress_hook "id1" (downloading_event 400 1000) empty_world))
      !! "id1" = Some s1
    ∧ download_status (snd (progress_hook "id1" (downloading_event 1000 1000) empty_world))
        !! "id1" = Some s2
    ∧ percent_value s1 = Some p1 ∧ percent_value s2 = Some p2 ∧ (p1 ≤ p2)%Qc.
Proof.
  refine (proj2 (percent_over_job "/tmp" sample_engine (λ _, "failed") (λ _, false)
                   "id1" PNone PNone PNone PNone empty_world)
            (downloading_event 400 1000) (downloading_event 1000 1000)
            empty_world empty_world (Qc_of_Z 1000) (Qc_of_Z 400) (Qc_of_Z 1000)
            eq_refl eq_refl eq_refl eq_refl eq_refl eq_refl eq_refl _).
  discriminate.
Defined.

(** ** Artifact delivery *)

Lemma chunk_size_pos : (0 < chunk_size)%nat.
Proof. unfold chunk_size. lia. Qed.

Lemma read_loop_concat (fuel : nat) (data : list byte) :
  (length data < fuel)%nat → concat (read_loop fuel data) = data.
Proof.
  revert data. induction fuel as [| fuel IH]; intros data Hlen; [lia |].
  pose proof chunk_size_pos as Hpos.
  cbn [read_loop].
  destruct (take chunk_size data) as [| b chunk] eqn:Htake.
  - destruct data as [| b data]; [reflexivity |].
    destruct chunk_size; [lia | discriminate].
  - rewrite <- Htake. cbn [concat]. rewrite IH.
    + apply take_drop.
    + rewrite length_drop. destruct data; [discriminate |]. simpl in *. lia.
Qed.

Lemma file_chunks_concat (data : list byte) : concat (file_chunks data) = data.
Proof. apply read_loop_concat. lia. Qed.

Lemma file_chunks_bounded (data : list byte) :
  Forall (λ chunk, (0 < length chunk ≤ chunk_size)%nat) (file_chunks data).
Proof.
  unfold file_chunks. generalize (S (length data)) as fuel. intros fuel. revert data.
  induction fuel as [| fuel IH]; intros data; [constructor |].
  cbn [read_loop].
  destruct (take chunk_size data) as [| b chunk] eqn:Htake; constructor.
  - assert (Hle : (length (take chunk_size data) ≤ chunk_size)%nat)
      by (rewrite length_take; lia).
    rewrite Htake in Hle. simpl in *. lia.
  - apply IH.
Qed.

Lemma nonempty_Some (o : option string) (p : string) :
  nonempty o = Some p ↔ o = Some p ∧ p ≠ "".
Proof.
  destruct o as [s |]; simpl; [| split; [discriminate | intros [? _]; discriminate]].
  destruct (String.eqb_spec s "") as [-> | Hne]; split.
  - discriminate.
  - intros [[= <-] H]. by destruct H.
  - intros [= <-]. by split.
  - intros [[= <-] _]. reflexivity.
Qed.

(** C7: the fetch answers with the stream exactly when the entry exists, is
    completed and its file is on disk; otherwise it answers 404 with an error
    body.  In both cases it changes neither the store, the files, the
    threads nor the output, and when the entry is absent or not completed it
    makes no file-system call at all.  The stream, read to the end, yields
    the bytes of the file. *)
Theorem delivery_preconditions (id : string) (w : world) :
  ∃ r w',
    download_file id w = (Ok r, w') ∧ same_state w w'
    ∧ ((∃ st p f, deliverable w id st p f
                  ∧ r = Stream {| disposition_filename := s_filename st;
                                  content_length := length (content f);
                                  gen_filepath := p; gen_download_id := id |}
                  ∧ fst (generate p id None w') = Ok (file_chunks (content f))
                  ∧ concat (file_chunks (content f)) = content f)
       ∨ ((∀ st p f, ¬ deliverable w id st p f) ∧ ∃ msg, r = Json 404 (BError msg)))
    ∧ ((∀ st, download_status w !! id = Some st → s_status st ≠ "completed") →
       io_log w' = io_log w).
Proof.
  unfold download_file, bind, store_get, ret.
  destruct (download_status w !! id) as [st |] eqn:Hst.
  2: { exists (Json 404 (BError "İndirme tamamlanmadı")), w.
       split; [reflexivity |]. split; [by repeat split |]. split; [| reflexivity].
       right. split; [| by eexists]. intros st p f (H & _). congruence. }
  destruct (String.eqb_spec (s_status st) "completed") as [Hc | Hc]; simpl.
  2: { exists (Json 404 (BError "İndirme tamamlanmadı")), w.
       split; [reflexivity |]. split; [by repeat split |]. split; [| reflexivity].
       right. split; [| by eexists]. intros st' p f (H & H' & _). congruence. }
  destruct (nonempty (s_filepath st)) as [p |] eqn:Hp.
  2: { exists (Json 404 (BError "Dosya bulunamadı")), w.
       split; [reflexivity |]. split; [by repeat split |].
       split; [| intros H; by destruct (H st eq_refl)].
       right. split; [| by eexists]. intros st' p f (H & _ & H' & Hne & _).
       assert (st' = st) as -> by congruence.
       assert (nonempty (s_filepath st) = Some p) by by apply nonempty_Some.
       congruence. }
  apply nonempty_Some in Hp as [Hp Hne].
  unfold os_path_exists, os_path_getsize, bind, io, get_files, ret, raise. simpl.
  destruct (files w !! p) as [f |] eqn:Hf; simpl; rewrite ?Hf; simpl.
  - eexists _, _. split; [reflexivity |]. split; [by repeat split |].
    split; [| intros H; by destruct (H st eq_refl)].
    left. exists st, p, f. split; [by repeat split |]. split; [reflexivity |].
    split; [| apply file_chunks_concat].
    unfold generate, try_finally, bind, io, get_files, spawn, ret. simpl.
    rewrite Hf. reflexivity.
  - eexists _, _. split; [reflexivity |]. split; [by repeat split |].
    split; [| intros H; by destruct (H st eq_refl)].
    right. split; [| by eexists]. intros st' p' f (H & _ & H' & _ & Hf').
    assert (st' = st) as -> by congruence. congruence.
Qed.

(** ** Cleanup *)

Lemma cleanup_steps_compose (filepath id : string) (w : world) :
  delete_file_after_delay filepath id w =
    match cleanup_step filepath id PcRemoveFile w with
    | (Ok pc, w1) =>
        match cleanup_step filepath id pc w1 with
        | (Ok _, w2) => (Ok (), w2)
        | (Raise e, w2) => (Raise e, w2)
        end
    | (Raise e, w1) => (Raise e, w1)
    end.
Proof.
  unfold delete_file_after_delay, cleanup_step, try_except, bind, ret.
  destruct (cleanup_remove_file filepath w) as [[[] | e] w1]; simpl.
  - unfold cleanup_remove_entry, bind, store_get.
    destruct (download_status w1 !! id); reflexivity.
  - unfold print. reflexivity.
Qed.

Lemma lookups_not_found (filepath id : string) (pc : cleanup_pc) (w : world) (n : nat) :
  download_status w !! id = None →
  run_schedule filepath id (replicate n StatusLookup) pc w
    = replicate n ("not_found", None, true).
Proof.
  intros Hnone. induction n as [| n IH]; [reflexivity |].
  cbn [replicate run_schedule].
  unfold download_status_endpoint, bind, store_get, ret. rewrite Hnone. simpl.
  by rewrite IH.
Qed.

Lemma run_two_steps (filepath id : string) (w w' : world) (rest : list sched_event) :
  delete_file_after_delay filepath id w = (Ok (), w') →
  ∃ pc, run_schedule filepath id ([StepCleanup; StepCleanup] ++ rest) PcRemoveFile w
        = run_schedule filepath id rest pc w'.
Proof.
  rewrite cleanup_steps_compose. cbn [app run_schedule].
  destruct (cleanup_step filepath id PcRemoveFile w) as [[pc1 | e] w1]; [| discriminate].
  destruct (cleanup_step filepath id pc1 w1) as [[pc2 | e] w2]; [| discriminate].
  intros [= <-]. by exists pc2.
Qed.

(** C3: when the file is already gone or can be deleted, the cleanup thread
    runs to its end without printing an error; afterwards the file is gone,
    the entry is gone, the status lookup answers not_found and the fetch
    answers 404, and no other entry has changed. *)
Theorem cleanup_then_not_found (filepath id : string) (w : world) :
  (files w !! filepath = None ∨ ∃ f, files w !! filepath = Some f ∧ deletable f = true) →
  ∃ w',
    delete_file_after_delay filepath id w = (Ok (), w')
    ∧ stdout w' = stdout w
    ∧ files w' !! filepath = None
    ∧ download_status w' = delete id (download_status w)
    ∧ download_status_endpoint id w' = (Ok (Json 200 (BStatus not_found_status)), w')
    ∧ download_file id w' = (Ok (Json 404 (BError "İndirme tamamlanmadı")), w')
    ∧ no_dangling_lookup w' id
    ∧ ∀ n, run_schedule filepath id
             ([StepCleanup; StepCleanup] ++ replicate n StatusLookup) PcRemoveFile w
           = replicate n ("not_found", None, true).
Proof.
  intros Hfile.
  assert (Hsched : ∀ w', delete_file_after_delay filepath id w = (Ok (), w') →
            download_status w' = delete id (download_status w) →
            ∀ n, run_schedule filepath id
                   ([StepCleanup; StepCleanup] ++ replicate n StatusLookup) PcRemoveFile w
                 = replicate n ("not_found", None, true)).
  { intros w' Hrun Hst n.
    destruct (run_two_steps _ _ _ _ (replicate n StatusLookup) Hrun) as [pc ->].
    apply lookups_not_found. rewrite Hst. apply lookup_delete_eq. }
  assert (Hend : ∀ w', download_status w' = delete id (download_status w) →
            download_status_endpoint id w' = (Ok (Json 200 (BStatus not_found_status)), w')
            ∧ download_file id w' = (Ok (Json 404 (BError "İndirme tamamlanmadı")), w')
            ∧ no_dangling_lookup w' id).
  { intros w' Hst.
    assert (Hnone : download_status w' !! id = None) by (rewrite Hst; apply lookup_delete_eq).
    unfold download_status_endpoint, download_file, no_dangling_lookup, bind, store_get, ret.
    rewrite Hnone. repeat split. intros st p H. discriminate. }
  assert (Hcore : ∃ w', delete_file_after_delay filepath id w = (Ok (), w')
                        ∧ stdout w' = stdout w
                        ∧ files w' !! filepath = None
                        ∧ download_status w' = delete id (download_status w)).
  { unfold delete_file_after_delay, cleanup_remove_file, cleanup_remove_entry,
      os_path_exists, os_remove.
    unfold_monad. simpl.
    destruct Hfile as [Hf | (f & Hf & Hdel)];
      repeat (first [rewrite Hf | rewrite Hdel]; simpl).
    all: destruct (download_status w !! id) eqn:Hid; simpl.
    all: eexists; split; [reflexivity |]; simpl.
    all: repeat split; try done; try apply lookup_delete_eq.
    all: symmetry; by apply delete_id. }
  destruct Hcore as (w' & Hrun & Hout & Hgone & Hst).
  destruct (Hend w' Hst) as (Hstatus & Hfetch & Hnd).
  exists w'. repeat split; try done. by apply (Hsched w').
Qed.

Lemma delivered_run_threads : threads delivered_run = [TCleanup "/tmp/id1.mp3" "id1"].
Proof. reflexivity. Qed.

(** Between the two steps of the cleanup thread a status lookup returns the
    completed record although its file is gone. *)
Lemma lookup_between_cleanup_steps :
  run_schedule "/tmp/id1.mp3" "id1"
      [StatusLookup; StepCleanup; StatusLookup; StepCleanup; StatusLookup]
      PcRemoveFile delivered_run
    = [ ("completed", Some "/tmp/id1.mp3", true);
        ("completed", Some "/tmp/id1.mp3", false);
        ("not_found", None, true) ]
  ∧ no_dangling_lookup delivered_run "id1"
  ∧ ∃ w1 st,
      cleanup_step "/tmp/id1.mp3" "id1" PcRemoveFile delivered_run = (Ok PcRemoveEntry, w1)
      ∧ download_status_endpoint "id1" w1 = (Ok (Json 200 (BStatus st)), w1)
      ∧ s_status st = "completed"
      ∧ s_filepath st = Some "/tmp/id1.mp3"
      ∧ files w1 !! "/tmp/id1.mp3" = None
      ∧ ¬ no_dangling_lookup w1 "id1".
Proof.
  split; [reflexivity |]. split.
  - intros st p Hst Hp. vm_compute in Hst. injection Hst as <-.
    simpl in Hp. injection Hp as <-. vm_compute. eauto.
  - eexists _, _. split; [reflexivity |]. split; [reflexivity |].
    split; [reflexivity |]. split; [reflexivity |]. split; [reflexivity |].
    intros H. destruct (H _ "/tmp/id1.mp3" eq_refl eq_refl) as [f Hf].
    vm_compute in Hf. discriminate.
Qed.

Lemma cleanup_failure_keeps_entry :
  ∃ w' st,
    delete_file_after_delay "/tmp/id1.mp3" "id1" protected_run = (Ok (), w')
    ∧ stdout w' = [LogDeleteError PermissionError]
    ∧ download_status_endpoint "id1" w' = (Ok (Json 200 (BStatus st)), w')
    ∧ s_status st = "completed".
Proof. eexists _, _. repeat split. Qed.

Lemma cleanup_then_not_found_sample :
  ∃ w', delete_file_after_delay "/tmp/id1.mp3" "id1" delivered_run = (Ok (), w')
        ∧ download_status_endpoint "id1" w' = (Ok (Json 200 (BStatus not_found_status)), w')
        ∧ files w' !! "/tmp/id1.mp3" = None.
Proof.
  destruct (cleanup_then_not_found "/tmp/id1.mp3" "id1" delivered_run)
    as (w' & Hrun & _ & Hfile & _ & Hstatus & _).
  - right. eexists. split; reflexivity.
  - exists w'. by repeat split.
Defined.

(** A job that is still queued: 404, and no file-system call. *)
Lemma queued_job_not_delivered :
  let w := snd (download mp3_submission "id1" empty_world) in
  ∃ w', download_file "id1" w = (Ok (Json 404 (BError "İndirme tamamlanmadı")), w')
        ∧ io_log w' = [] ∧ w' = w.
Proof. eexists. repeat split. Qed.

(** ** The format selector *)

(** *** Reading [<N>p] back *)

Lemma int_digits_cons (c : ascii) (s : string) (acc : Z) (b : bool) :
  is_digit c = true →
  int_digits acc b (String c s) = int_digits (10 * acc + digit_val c) true s.
Proof. intros H. cbn [int_digits]. by rewrite H. Qed.

Lemma int_digits_uint (d : Decimal.uint) (acc : Z) (b : bool) :
  b = true ∨ d ≠ Decimal.Nil →
  int_digits acc b (NilEmpty.string_of_uint d) = Some (uint_val acc d).
Proof.
  revert acc b.
  induction d as [| d IH | d IH | d IH | d IH | d IH | d IH | d IH | d IH | d IH | d IH];
    intros acc b Hb;
    [ destruct Hb as [-> | Hb]; [reflexivity | done]
    | cbn [NilEmpty.string_of_uint uint_val];
      rewrite int_digits_cons by reflexivity;
      rewrite IH by (by left); reflexivity .. ].
Qed.

Lemma of_uint_acc_val (d : Decimal.uint) (acc : positive) :
  Z.pos (Pos.of_uint_acc d acc) = uint_val (Z.pos acc) d.
Proof.
  revert acc. induction d; intros acc; cbn [Pos.of_uint_acc uint_val];
    [reflexivity | rewrite IHd; f_equal; lia ..].
Qed.

Lemma of_uint_val (d : Decimal.uint) : Z.of_N (Pos.of_uint d) = uint_val 0 d.
Proof.
  induction d; cbn [Pos.of_uint uint_val];
    [reflexivity | exact IHd | cbn [Z.of_N]; rewrite of_uint_acc_val; reflexivity ..].
Qed.

Lemma string_of_uint_digits (d : Decimal.uint) :
  all_chars is_digit (NilEmpty.string_of_uint d) = true.
Proof. induction d; cbn [NilEmpty.string_of_uint all_chars]; [reflexivity | exact IHd ..]. Qed.

Lemma digit_char (c : ascii) :
  is_digit c = true →
  Ascii.eqb c "-" = false ∧ Ascii.eqb c "+" = false ∧ is_space c = false
  ∧ Ascii.eqb c "p" = false.
Proof. destruct c as [[] [] [] [] [] [] [] []]; vm_compute; intros; done. Qed.

Lemma py_int_digits (s : string) (z : Z) :
  all_chars is_digit s = true → int_digits 0 false s = Some z → py_int s = Ok z.
Proof.
  intros Hd Hz. unfold py_int.
  rewrite strip_none.
  - destruct s as [| c r]; [by rewrite Hz |].
    simpl in Hd. apply andb_true_iff in Hd as [Hc _].
    destruct (digit_char c Hc) as (-> & -> & _). by rewrite Hz.
  - revert Hd. apply all_chars_weaken. intros c Hc.
    destruct (digit_char c Hc) as (_ & _ & -> & _). reflexivity.
Qed.

(** For every N ≥ 0 the quality [<N>p] is read back as N. *)
Lemma quality_np_parses (n : Z) :
  0 ≤ n →
  quality_np n ≠ PStr "best"
  ∧ val_replace "p" "" (quality_np n) = Ok (str_of_int n)
  ∧ py_int (str_of_int n) = Ok n.
Proof.
  intros Hn.
  assert (Hstr : ∃ d, str_of_int n = NilEmpty.string_of_uint d ∧ d ≠ Decimal.Nil
                      ∧ uint_val 0 d = n).
  { destruct n as [| p | p]; [by exists (Decimal.D0 Decimal.Nil) | | lia].
    exists (Pos.to_uint p).
    pose proof (Unsigned.to_uint_nonnil p) as Hnil.
    split; [| split; [exact Hnil |]].
    - unfold str_of_int. simpl. unfold NilZero.string_of_uint.
      by destruct (Pos.to_uint p).
    - by rewrite <- of_uint_val, Unsigned.of_to. }
  destruct Hstr as (d & Hs & Hnil & Hval).
  pose proof (string_of_uint_digits d) as Hdig. rewrite <- Hs in Hdig.
  assert (Hp : all_chars (is_not "p") (str_of_int n) = true).
  { revert Hdig. apply all_chars_weaken. intros c Hc. unfold is_not.
    destruct (digit_char c Hc) as (_ & _ & _ & ->). reflexivity. }
  split; [| split].
  - unfold quality_np. intros [= Hbest].
    apply (f_equal (all_chars (λ c, is_digit c || Ascii.eqb c "p"))) in Hbest.
    assert (Hall : all_chars (λ c, is_digit c || Ascii.eqb c "p") (str_of_int n +:+ "p")
                   = true).
    { clear -Hdig. induction (str_of_int n) as [| a s IH]; [reflexivity |].
      rewrite append_cons. simpl in *. apply andb_true_iff in Hdig as [-> Hs].
      by apply IH. }
    rewrite Hall in Hbest. vm_compute in Hbest. discriminate.
  - unfold quality_np, val_replace. by rewrite replace_trailing_p.
  - apply py_int_digits; [exact Hdig |].
    rewrite Hs, int_digits_uint by (by right). by rewrite Hval.
Qed.






(** ** Cleaning a URL twice *)

Lemma safe_id_char_not (c a : ascii) :
  char_in c "#&%+" = true → safe_id_char a = true → is_not c a = true.
Proof.
  unfold safe_id_char, is_not, char_in. simpl.
  rewrite !orb_false_r, !andb_true_iff, !negb_true_iff, !orb_true_iff, !orb_false_iff.
  intros Hc [(H1 & H2 & H3 & H4) _].
  destruct Hc as [Hc | [Hc | [Hc | Hc]]]; apply Ascii.eqb_eq in Hc; subst c; assumption.
Qed.

Lemma safe_id_without (c : ascii) (s : string) :
  char_in c "#&%+" = true → all_chars safe_id_char s = true → all_chars (is_not c) s = true.
Proof. intros Hc. apply all_chars_weaken. intros a. by apply safe_id_char_not. Qed.

Ltac expose_prefix :=
  unfold canonical_url; repeat rewrite append_cons; rewrite ?append_empty_l.

Section CleanTwice.

Variable valid_netloc : string → bool.

Lemma urlparse_canonical (id : string) :
  all_chars safe_id_char id = true →
  urlparse valid_netloc (canonical_url id) =
    Ok {| scheme := "https"; netloc := "www.youtube.com"; path := "/watch";
          params := ""; query := String "v" (String "=" id); fragment := "" |}.
Proof.
  intros Hsafe.
  assert (Hunsafe : remove_chars unsafe_url_byte id = id).
  { apply remove_chars_none. revert Hsafe. apply all_chars_weaken.
    intros c. unfold safe_id_char. rewrite andb_true_iff. tauto. }
  assert (Hfrag : partition "#" id = (id, None))
    by (apply partition_none; by apply safe_id_without).
  unfold urlparse. expose_prefix.
  simpl. rewrite Hunsafe, Hfrag. reflexivity.
Qed.

Lemma contains_canonical (id : string) :
  contains "youtube.com/watch" (canonical_url id) = true
  ∧ contains "youtu.be" (canonical_url id) = contains "youtu.be" id
  ∧ contains "list=" (canonical_url id) = contains "list=" id
  ∧ contains "&" (canonical_url id) = contains "&" id.
Proof.
  expose_prefix. repeat split.
Qed.

Lemma parse_qsl_canonical (id : string) :
  all_chars safe_id_char id = true → id ≠ "" →
  parse_qsl (String "v" (String "=" id)) = [("v", id)].
Proof.
  intros Hsafe Hne. unfold parse_qsl.
  assert (Hamp : all_chars (is_not "&") id = true) by by apply safe_id_without.
  assert (Hplus : all_chars (is_not "+") id = true) by by apply safe_id_without.
  assert (Hpct : all_chars (is_not "%") id = true) by by apply safe_id_without.
  simpl. rewrite (split_on_none _ _ Hamp). simpl.
  destruct (String.eqb_spec id "") as [-> | _]; [done |].
  rewrite app_nil_r.
  rewrite (replace_plus_none " " id Hplus), (unquote_none id Hpct). reflexivity.
Qed.

Lemma clean_canonical (id : string) :
  safe_id id →
  clean_youtube_url valid_netloc (canonical_url id) = Ok (canonical_url id).
Proof.
  intros [Hsafe Hbe].
  destruct (contains_canonical id) as (Hwatch & Hyoutu & Hlist & Hamp).
  unfold clean_youtube_url.
  replace (String.eqb (canonical_url id) "") with false by (expose_prefix; reflexivity).
  rewrite (urlparse_canonical id Hsafe). cbn [rbind path query].
  rewrite Hwatch, Hyoutu, Hbe. cbn [orb].
  replace (contains "watch" "/watch") with true by reflexivity. cbn [orb].
  assert (Hampid : all_chars (is_not "&") id = true) by by apply safe_id_without.
  destruct (String.eqb_spec id "") as [-> | Hne].
  - reflexivity.
  - rewrite (parse_qsl_canonical id Hsafe Hne). cbn [qs_first String.eqb Ascii.eqb].
    simpl. unfold split_head. rewrite (partition_none _ _ Hampid). simpl.
    destruct (String.eqb_spec id "") as [-> | _]; [done | reflexivity].
Qed.

(** Ids made of letters, digits, [-] and [_] are safe. *)
Lemma plain_id_safe (id : string) : all_chars plain_id_char id = true → safe_id id.
Proof.
  intros Hplain. split.
  - revert Hplain. apply all_chars_weaken.
    intros [[] [] [] [] [] [] [] []]; vm_compute; congruence.
  - destruct (contains "youtu.be" id) eqn:Hc; [| reflexivity].
    pose proof (contains_chars "youtu.be" id "." Hc eq_refl) as Hdot.
    pose proof (all_chars_char_in _ _ _ Hplain Hdot) as Hbad.
    vm_compute in Hbad. discriminate.
Qed.


End CleanTwice.



(** * Further properties

    Properties of the remaining code, and of the functions above beyond
    what the first part needed. *)

(** ** More on strings *)

Lemma all_chars_app (p : ascii → bool) (a b : string) :
  all_chars p (a +:+ b) = all_chars p a && all_chars p b.
Proof.
  induction a as [| x a IH]; [reflexivity |].
  rewrite append_cons. cbn [all_chars]. by rewrite IH, andb_assoc.
Qed.

Lemma contains_single (c : ascii) (s : string) :
  contains (String c "") s = negb (all_chars (is_not c) s).
Proof.
  induction s as [| a s IH]; [reflexivity |].
  cbn [contains startswith all_chars]. rewrite IH. unfold is_not.
  replace (startswith s "") with true by (by destruct s).
  by destruct (Ascii.eqb a c).
Qed.

Lemma all_chars_split_head (c : ascii) (s : string) :
  all_chars (is_not c) (split_head c s) = true.
Proof.
  unfold split_head. induction s as [| a s IH]; [reflexivity |].
  cbn [partition]. destruct (Ascii.eqb a c) eqn:E; [reflexivity |].
  destruct (partition c s) as [h t]. cbn [fst all_chars] in *.
  unfold is_not at 1. by rewrite E, IH.
Qed.

Lemma split_head_none (c : ascii) (s : string) :
  all_chars (is_not c) s = true → split_head c s = s.
Proof. intros H. unfold split_head. by rewrite partition_none. Qed.

Lemma partition_app (c : ascii) (a b : string) :
  all_chars (is_not c) a = true →
  partition c (a +:+ b) = (a +:+ (partition c b).1, (partition c b).2).
Proof.
  induction a as [| x a IH].
  - intros _. rewrite !append_empty_l. by destruct (partition c b).
  - cbn [all_chars]. unfold is_not at 1. rewrite andb_true_iff, negb_true_iff.
    intros [Hx Ha]. rewrite !append_cons. cbn [partition]. rewrite Hx, (IH Ha).
    reflexivity.
Qed.

Lemma split_on_app (c : ascii) (a b : string) :
  all_chars (is_not c) a = true →
  split_on c (a +:+ String c b) = a :: split_on c b.
Proof.
  induction a as [| x a IH].
  - intros _. rewrite append_empty_l. cbn [split_on]. by rewrite Ascii.eqb_refl.
  - cbn [all_chars]. unfold is_not at 1. rewrite andb_true_iff, negb_true_iff.
    intros [Hx Ha]. rewrite append_cons. cbn [split_on]. by rewrite Hx, (IH Ha).
Qed.

Lemma remove_chars_app (bad : ascii → bool) (a b : string) :
  remove_chars bad (a +:+ b) = remove_chars bad a +:+ remove_chars bad b.
Proof.
  induction a as [| x a IH]; [reflexivity |].
  rewrite append_cons. cbn [remove_chars]. destruct (bad x); [exact IH |].
  by rewrite append_cons, IH.
Qed.

Lemma partition_none_inv (c : ascii) (s h : string) :
  partition c s = (h, None) → h = s.
Proof.
  revert h. induction s as [| a s IH]; intros h; [by intros [= <-] |].
  cbn [partition]. destruct (Ascii.eqb a c); [discriminate |].
  destruct (partition c s) as [h' t]. intros [= <- ->]. by rewrite (IH h').
Qed.

Lemma re_search_v_no_amp (s g : string) :
  re_search_v s = Some g → all_chars (is_not "&") g = true.
Proof.
  induction s as [| c s IH]; [discriminate |].
  cbn [re_search_v].
  destruct ((Ascii.eqb c "?" || Ascii.eqb c "&") && startswith s "v=").
  - destruct (drop_str 2 s) as [| a rest] eqn:Hrest; [exact IH |].
    destruct (Ascii.eqb a "&"); [exact IH |].
    intros [= <-]. apply all_chars_split_head.
  - exact IH.
Qed.

(** ** clean_youtube_url *)

Section CleanMore.

Variable valid_netloc : string → bool.

(** X1: whatever the input, a URL returned by clean_youtube_url contains no
    [&]: what follows the first [&] is always cut. *)
Theorem clean_result_has_no_ampersand (url r : string) :
  clean_youtube_url valid_netloc url = Ok r → contains "&" r = false.
Proof.
  assert (Hcanon : ∀ v, all_chars (is_not "&") v = true →
                        contains "&" (canonical_url v) = false).
  { intros v Hv. destruct (contains_canonical v) as (_ & _ & _ & ->).
    by rewrite contains_single, Hv. }
  unfold clean_youtube_url.
  destruct (String.eqb_spec url "") as [-> | Hne]; [by intros [= <-] |].
  destruct (urlparse valid_netloc url) as [parsed |]; [| discriminate].
  cbn [rbind].
  match goal with |- context [nonempty ?o] => destruct (nonempty o) as [vid |] eqn:Hvid end.
  - intros [= <-]. apply Hcanon.
    apply nonempty_Some in Hvid as [Hvid _].
    repeat match type of Hvid with
           | (if ?b then _ else _) = _ => destruct b
           | match ?o with Some _ => _ | None => _ end = _ => destruct o
           end; try discriminate;
      injection Hvid as <-; apply all_chars_split_head.
  - destruct (contains "list=" url).
    + destruct (re_search_v url) as [vid |] eqn:Hre.
      * intros [= <-]. apply Hcanon. by eapply re_search_v_no_amp.
      * destruct (contains "&" url) eqn:Hamp; intros [= <-]; [| exact Hamp].
        by rewrite contains_single, all_chars_split_head.
    + destruct (contains "&" url) eqn:Hamp; intros [= <-]; [| exact Hamp].
      by rewrite contains_single, all_chars_split_head.
Qed.

End CleanMore.

Lemma clean_result_has_no_ampersand_sample :
  clean_youtube_url (λ _, true) "https://example.com/a?b=1&c=2" = Ok "https://example.com/a?b=1"
  ∧ contains "&" "https://example.com/a?b=1" = false.
Proof.
  split; [reflexivity |].
  exact (clean_result_has_no_ampersand (λ _, true) "https://example.com/a?b=1&c=2"
           "https://example.com/a?b=1" eq_refl).
Defined.

Section CleanForms.

Variable valid_netloc : string → bool.

Lemma urlparse_watch_params (id rest : string) :
  all_chars safe_id_char id = true →
  ∃ q frag,
    urlparse valid_netloc (canonical_url id +:+ String "&" rest) =
      Ok {| scheme := "https"; netloc := "www.youtube.com"; path := "/watch";
            params := ""; query := String "v" (String "=" (id +:+ String "&" q));
            fragment := frag |}.
Proof.
  intros Hsafe.
  assert (Hunsafe : remove_chars unsafe_url_byte id = id).
  { apply remove_chars_none. revert Hsafe. apply all_chars_weaken.
    intros c. unfold safe_id_char. rewrite andb_true_iff. tauto. }
  assert (Hfrag : all_chars (is_not "#") id = true) by by apply safe_id_without.
  unfold urlparse, canonical_url. rewrite append_assoc.
  repeat rewrite append_cons. rewrite append_empty_l.
  simpl. rewrite remove_chars_app, Hunsafe.
  change (remove_chars unsafe_url_byte (String "&" rest))
    with (String "&" (remove_chars unsafe_url_byte rest)).
  rewrite (partition_app "#" id _ Hfrag).
  change (partition "#" (String "&" (remove_chars unsafe_url_byte rest)))
    with (let '(h, t) := partition "#" (remove_chars unsafe_url_byte rest) in
          (String "&" h, t)).
  destruct (partition "#" (remove_chars unsafe_url_byte rest)) as [h [t |]] eqn:Hp;
    simpl; eexists _, _.
  - reflexivity.
  - apply partition_none_inv in Hp as ->. reflexivity.
Qed.

Lemma parse_qsl_first (id q : string) :
  all_chars safe_id_char id = true → id ≠ "" →
  ∃ others, parse_qsl (String "v" (String "=" (id +:+ String "&" q))) = ("v", id) :: others.
Proof.
  intros Hsafe Hne.
  assert (Hamp : all_chars (is_not "&") id = true) by by apply safe_id_without.
  assert (Hplus : all_chars (is_not "+") id = true) by by apply safe_id_without.
  assert (Hpct : all_chars (is_not "%") id = true) by by apply safe_id_without.
  unfold parse_qsl. cbn [String.eqb].
  change (String "v" (String "=" (id +:+ String "&" q)))
    with (String "v" (String "=" id) +:+ String "&" q).
  rewrite split_on_app by exact Hamp.
  cbn [flat_map]. cbn [String.eqb partition Ascii.eqb Bool.eqb].
  destruct (String.eqb_spec id "") as [-> | _]; [done |].
  rewrite (replace_plus_none " " id Hplus), (unquote_none id Hpct).
  eexists. reflexivity.
Qed.

(** X2: a watch URL whose id is made of letters, digits, [-] and [_], followed
    by [&] and any further parameters (a playlist, an index, a fragment), is
    cleaned to the canonical URL of that id, provided "youtu.be" occurs
    nowhere in it. *)
Theorem clean_watch_strips_parameters (id rest : string) :
  all_chars plain_id_char id = true → id ≠ "" →
  contains "youtu.be" (canonical_url id +:+ String "&" rest) = false →
  clean_youtube_url valid_netloc (canonical_url id +:+ String "&" rest)
    = Ok (canonical_url id).
Proof.
  intros Hplain Hne Hbe.
  destruct (plain_id_safe id Hplain) as [Hsafe _].
  assert (Hamp : all_chars (is_not "&") id = true) by by apply safe_id_without.
  unfold clean_youtube_url.
  destruct (urlparse_watch_params id rest Hsafe) as (q & frag & ->).
  rewrite Hbe. cbn [rbind path query].
  destruct (parse_qsl_first id q Hsafe Hne) as (others & ->).
  replace (String.eqb (canonical_url id +:+ String "&" rest) "") with false
    by (unfold canonical_url; rewrite append_assoc, append_cons; reflexivity).
  replace (contains "youtube.com/watch" (canonical_url id +:+ String "&" rest)) with true
    by (unfold canonical_url; rewrite append_assoc; repeat rewrite append_cons;
        reflexivity).
  cbn [orb]. replace (contains "watch" "/watch") with true by reflexivity.
  cbn [orb qs_first String.eqb Ascii.eqb Bool.eqb andb].
  rewrite (split_head_none _ _ Hamp). cbn [nonempty].
  destruct (String.eqb_spec id "") as [-> | _]; [done | reflexivity].
Qed.

Lemma plain_without (c : ascii) (s : string) :
  plain_id_char c = false → all_chars plain_id_char s = true →
  all_chars (is_not c) s = true.
Proof.
  intros Hc. apply all_chars_weaken. intros a Ha. unfold is_not.
  destruct (Ascii.eqb_spec a c) as [-> | _]; [congruence | reflexivity].
Qed.

Lemma urlparse_short_link (id tail : string) :
  all_chars plain_id_char id = true →
  tail = "" ∨ (∃ q, tail = String "?" q) →
  ∃ qry frag,
    urlparse valid_netloc (short_link id +:+ tail) =
      Ok {| scheme := "https"; netloc := "youtu.be"; path := String "/" id;
            params := ""; query := qry; fragment := frag |}.
Proof.
  intros Hplain Htail.
  destruct (plain_id_safe id Hplain) as [Hsafe _].
  assert (Hunsafe : remove_chars unsafe_url_byte id = id).
  { apply remove_chars_none. revert Hsafe. apply all_chars_weaken.
    intros c. unfold safe_id_char. rewrite andb_true_iff. tauto. }
  assert (Hfrag : all_chars (is_not "#") id = true) by by apply plain_without.
  assert (Hq : all_chars (is_not "?") id = true) by by apply plain_without.
  assert (Hq' : all_chars (is_not "?") (String "/" id) = true) by exact Hq.
  assert (Hsemi : contains ";" (String "/" id) = false).
  { rewrite contains_single. cbn [all_chars]. by rewrite (plain_without ";" id). }
  unfold urlparse, short_link. rewrite append_assoc.
  repeat rewrite append_cons. rewrite append_empty_l.
  simpl. rewrite remove_chars_app, Hunsafe.
  rewrite (partition_app "#" id _ Hfrag).
  destruct Htail as [-> | [q ->]].
  - cbn [remove_chars partition fst snd]. rewrite append_empty_r.
    rewrite (partition_none "?" id Hq).
    change (Ascii.eqb "/" "?") with false. cbv beta iota zeta.
    rewrite Hsemi. eexists _, _. reflexivity.
  - change (remove_chars unsafe_url_byte (String "?" q))
      with (String "?" (remove_chars unsafe_url_byte q)).
    change (partition "#" (String "?" (remove_chars unsafe_url_byte q)))
      with (let '(h, t) := partition "#" (remove_chars unsafe_url_byte q) in
            (String "?" h, t)).
    assert (Hstep : ∀ x, partition "?" (String "/" (id +:+ String "?" x))
                         = (String "/" id, Some x)).
    { intros x. rewrite <- (append_cons "/" id).
      rewrite (partition_app "?" (String "/" id) _ Hq').
      change (partition "?" (String "?" x)) with ("", Some x).
      cbn [fst snd]. by rewrite append_empty_r. }
    destruct (partition "#" (remove_chars unsafe_url_byte q)) as [h [t |]] eqn:Hp;
      cbn [fst snd]; rewrite Hstep; cbv beta iota zeta; rewrite Hsemi;
      eexists _, _; reflexivity.
Qed.

Lemma clean_short_link_canonical (id tail : string) :
  all_chars plain_id_char id = true → id ≠ "" →
  tail = "" ∨ (∃ q, tail = String "?" q) →
  clean_youtube_url valid_netloc (short_link id +:+ tail) = Ok (canonical_url id).
Proof.
  intros Hplain Hne Htail.
  assert (Hamp : all_chars (is_not "&") id = true) by by apply plain_without.
  assert (Hq : all_chars (is_not "?") id = true) by by apply plain_without.
  assert (Hslash : all_chars (is_not "/") id = true) by by apply plain_without.
  unfold clean_youtube_url.
  destruct (urlparse_short_link id tail Hplain Htail) as (qry & frag & ->).
  replace (String.eqb (short_link id +:+ tail) "") with false
    by (unfold short_link; rewrite append_assoc, append_cons; reflexivity).
  replace (contains "youtu.be" (short_link id +:+ tail)) with true
    by (unfold short_link; rewrite append_assoc; repeat rewrite append_cons;
        reflexivity).
  rewrite orb_true_r. cbn [rbind path lstrip is_slash Ascii.eqb Bool.eqb andb].
  rewrite (lstrip_none is_slash id Hslash).
  rewrite (split_head_none "?" id Hq), (split_head_none "&" id Hamp).
  cbn [nonempty]. destruct (String.eqb_spec id "") as [-> | _]; [done | reflexivity].
Qed.

(** X3: a short link [https://youtu.be/<id>], alone or followed by [?] and any
    query, is cleaned to the canonical watch URL of the id, for every
    non-empty id made of letters, digits, [-] and [_]. *)
Theorem clean_short_link (id tail : string) :
  all_chars plain_id_char id = true → id ≠ "" →
  tail = "" ∨ (∃ q, tail = String "?" q) →
  clean_youtube_url valid_netloc (short_link id +:+ tail) = Ok (canonical_url id).
Proof. apply clean_short_link_canonical. Qed.

End CleanForms.

Lemma clean_short_link_sample :
  clean_youtube_url (λ _, true) "https://youtu.be/dQw4w9WgXcQ?t=42&feature=shared"
    = Ok "https://www.youtube.com/watch?v=dQw4w9WgXcQ".
Proof.
  refine (clean_short_link (λ _, true) "dQw4w9WgXcQ" "?t=42&feature=shared" eq_refl
            ltac:(discriminate) _).
  right. by eexists.
Defined.

Lemma clean_watch_strips_parameters_sample :
  clean_youtube_url (λ _, true)
    "https://www.youtube.com/watch?v=dQw4w9WgXcQ&list=PLx0sYbCqOb8TBPRdmBHs5Iftvv9TPboYG&index=2#t=10"
  = Ok "https://www.youtube.com/watch?v=dQw4w9WgXcQ".
Proof.
  exact (clean_watch_strips_parameters (λ _, true) "dQw4w9WgXcQ"
           "list=PLx0sYbCqOb8TBPRdmBHs5Iftvv9TPboYG&index=2#t=10" eq_refl
           ltac:(discriminate) eq_refl).
Defined.

(** ** extract_video_id *)

Lemma span_until_none (stop : ascii → bool) (s : string) :
  all_chars (λ c, negb (stop c)) s = true → span_until stop s = (s, "").
Proof.
  induction s as [| a s IH]; [reflexivity |].
  cbn [all_chars span_until]. rewrite andb_true_iff, negb_true_iff.
  intros [-> Hs]. by rewrite (IH Hs).
Qed.

Lemma span_until_all (stop : ascii → bool) (s : string) :
  all_chars (λ c, negb (stop c)) (span_until stop s).1 = true.
Proof.
  induction s as [| a s IH]; [reflexivity |].
  cbn [span_until]. destruct (stop a) eqn:E; [reflexivity |].
  destruct (span_until stop s) as [h t]. cbn [fst all_chars] in *. by rewrite E, IH.
Qed.

Lemma id_group_wellformed (s g : string) :
  id_group s = Some g → g ≠ "" ∧ all_chars (λ c, negb (id_stop c)) g = true.
Proof.
  destruct s as [| a s]; [discriminate |]. unfold id_group.
  destruct (id_stop a) eqn:E; [discriminate |]. intros [= <-]. split.
  - cbn [span_until]. rewrite E. by destruct (span_until id_stop s).
  - exact (span_until_all id_stop (String a s)).
Qed.

Lemma after_prefix_group_wellformed (p s g : string) :
  after_prefix p s ≫= id_group = Some g →
  g ≠ "" ∧ all_chars (λ c, negb (id_stop c)) g = true.
Proof.
  unfold after_prefix. destruct (startswith s p); [| discriminate].
  apply id_group_wellformed.
Qed.

Lemma search_id_pattern_wellformed (s g : string) :
  search_id_pattern s = Some g →
  g ≠ "" ∧ all_chars (λ c, negb (id_stop c)) g = true.
Proof.
  assert (Hhere : ∀ t, match_id_pattern t = Some g →
                       g ≠ "" ∧ all_chars (λ c, negb (id_stop c)) g = true).
  { intros t. unfold match_id_pattern.
    destruct (after_prefix "youtube.com/watch?v=" t ≫= id_group) eqn:E1;
      [intros [= ->]; by eapply after_prefix_group_wellformed |].
    destruct (after_prefix "youtu.be/" t ≫= id_group) eqn:E2;
      [intros [= ->]; by eapply after_prefix_group_wellformed |].
    apply after_prefix_group_wellformed. }
  induction s as [| c s IH]; cbn [search_id_pattern].
  - destruct (match_id_pattern "") eqn:E; [intros [= ->]; by eapply Hhere | discriminate].
  - destruct (match_id_pattern (String c s)) eqn:E; [intros [= ->]; by eapply Hhere | exact IH].
Qed.

Lemma last_v_group_wellformed (s g : string) :
  last_v_group s = Some g → g ≠ "" ∧ all_chars (λ c, negb (id_stop c)) g = true.
Proof.
  induction s as [| c s IH]; [discriminate |]. cbn [last_v_group].
  destruct (if (nat_of_ascii c =? 10)%nat then None else last_v_group s) as [g' |] eqn:E.
  - intros [= ->]. destruct (nat_of_ascii c =? 10)%nat; [discriminate | by apply IH].
  - apply after_prefix_group_wellformed.
Qed.

Lemma search_watch_pattern_wellformed (s g : string) :
  search_watch_pattern s = Some g →
  g ≠ "" ∧ all_chars (λ c, negb (id_stop c)) g = true.
Proof.
  assert (Hhere : ∀ t, match_watch_pattern t = Some g →
                       g ≠ "" ∧ all_chars (λ c, negb (id_stop c)) g = true).
  { intros t. unfold match_watch_pattern, after_prefix.
    destruct (startswith t "youtube.com/watch?"); [| discriminate].
    apply last_v_group_wellformed. }
  induction s as [| c s IH]; cbn [search_watch_pattern].
  - destruct (match_watch_pattern "") eqn:E; [intros [= ->]; by eapply Hhere | discriminate].
  - destruct (match_watch_pattern (String c s)) eqn:E;
      [intros [= ->]; by eapply Hhere | exact IH].
Qed.

Lemma id_group_plain (id : string) :
  all_chars plain_id_char id = true → id ≠ "" → id_group id = Some id.
Proof.
  intros Hplain Hne.
  assert (Hstop : all_chars (λ c, negb (id_stop c)) id = true).
  { revert Hplain. apply all_chars_weaken.
    intros [[] [] [] [] [] [] [] []]; vm_compute; congruence. }
  destruct id as [| a id]; [done |]. unfold id_group.
  rewrite (span_until_none _ _ Hstop).
  cbn [all_chars] in Hstop. apply andb_true_iff in Hstop as [Ha _].
  apply negb_true_iff in Ha. by rewrite Ha.
Qed.

Lemma search_id_pattern_skip (c : ascii) (s : string) :
  match_id_pattern (String c s) = None →
  search_id_pattern (String c s) = search_id_pattern s.
Proof. intros H. cbn [search_id_pattern]. by rewrite H. Qed.

Lemma search_id_pattern_here (s g : string) :
  match_id_pattern s = Some g → search_id_pattern s = Some g.
Proof. intros H. destruct s; cbn [search_id_pattern]; by rewrite H. Qed.

Section ExtractProperties.

Variable valid_netloc : string → bool.

(** X4: for every non-empty id made of letters, digits, [-] and [_],
    extract_video_id gives the id back from its canonical watch URL and from
    its short link. *)
Theorem extract_video_id_round_trip (id : string) :
  all_chars plain_id_char id = true → id ≠ "" →
  extract_video_id valid_netloc (canonical_url id) = Ok (Some id)
  ∧ extract_video_id valid_netloc (short_link id) = Ok (Some id).
Proof.
  intros Hplain Hne.
  assert (Hsearch : search_id_pattern (canonical_url id) = Some id).
  { unfold canonical_url. repeat rewrite append_cons. rewrite append_empty_l.
    repeat rewrite search_id_pattern_skip by reflexivity.
    apply search_id_pattern_here.
    unfold match_id_pattern.
    match goal with
    | |- context [after_prefix "youtube.com/watch?v=" ?t] =>
        replace (after_prefix "youtube.com/watch?v=" t) with (Some id)
          by (unfold after_prefix; simpl; by destruct id)
    end.
    cbn [mbind option_bind]. by rewrite (id_group_plain id Hplain Hne). }
  unfold extract_video_id. split.
  - rewrite (clean_canonical valid_netloc id (plain_id_safe id Hplain)).
    cbn [rbind]. by rewrite Hsearch.
  - pose proof (clean_short_link_canonical valid_netloc id "" Hplain Hne (or_introl eq_refl))
      as Hclean.
    rewrite append_empty_r in Hclean. rewrite Hclean. cbn [rbind]. by rewrite Hsearch.
Qed.

(** X5: an id returned by extract_video_id is never empty and contains none
    of [&], [?], [#] and newline. *)
Theorem extract_video_id_wellformed (url id : string) :
  extract_video_id valid_netloc url = Ok (Some id) →
  id ≠ "" ∧ all_chars (λ c, negb (id_stop c)) id = true.
Proof.
  unfold extract_video_id.
  destruct (clean_youtube_url valid_netloc url) as [cleaned |]; [| discriminate].
  cbn [rbind].
  destruct (search_id_pattern cleaned) as [g |] eqn:E.
  - intros [= <-]. by eapply search_id_pattern_wellformed.
  - intros [= H]. by eapply search_watch_pattern_wellformed.
Qed.

End ExtractProperties.

Lemma extract_video_id_round_trip_sample :
  extract_video_id (λ _, true) "https://www.youtube.com/watch?v=dQw4w9WgXcQ"
    = Ok (Some "dQw4w9WgXcQ")
  ∧ extract_video_id (λ _, true) "https://youtu.be/dQw4w9WgXcQ" = Ok (Some "dQw4w9WgXcQ").
Proof.
  exact (extract_video_id_round_trip (λ _, true) "dQw4w9WgXcQ" eq_refl ltac:(discriminate)).
Defined.

Lemma extract_video_id_wellformed_sample :
  extract_video_id (λ _, true) "https://www.youtube.com/embed/xyz_1?rel=0" = Ok (Some "xyz_1")
  ∧ "xyz_1" ≠ "" ∧ all_chars (λ c, negb (id_stop c)) "xyz_1" = true.
Proof.
  split; [reflexivity |].
  exact (extract_video_id_wellformed (λ _, true)
           "https://www.youtube.com/embed/xyz_1?rel=0" "xyz_1" eq_refl).
Defined.

(** ** File names *)

Lemma length_append (a b : string) :
  String.length (a +:+ b) = (String.length a + String.length b)%nat.
Proof.
  induction a as [| x a IH]; [reflexivity |].
  rewrite append_cons. cbn [String.length]. by rewrite IH.
Qed.

Lemma drop_str_app (a b : string) : drop_str (String.length a) (a +:+ b) = b.
Proof.
  induction a as [| x a IH]; [reflexivity |]. rewrite append_cons. exact IH.
Qed.

Lemma endswith_app (a b : string) : endswith (a +:+ b) b = true.
Proof.
  unfold endswith. rewrite length_append.
  replace (String.length a + String.length b - String.length b)%nat
    with (String.length a) by lia.
  rewrite drop_str_app, String.eqb_refl, andb_true_r.
  apply Nat.leb_le. lia.
Qed.



Lemma before_last_none (c : ascii) (s : string) :
  all_chars (is_not c) s = true → before_last c s = None.
Proof.
  induction s as [| a s IH]; [reflexivity |].
  cbn [all_chars before_last]. unfold is_not at 1.
  rewrite andb_true_iff, negb_true_iff. intros [-> Hs]. by rewrite (IH Hs).
Qed.

Lemma rsplit_head_app (c : ascii) (x e : string) :
  all_chars (is_not c) e = true → rsplit_head c (x +:+ String c e) = x.
Proof.
  intros He. unfold rsplit_head.
  assert (H : before_last c (x +:+ String c e) = Some x); [| by rewrite H].
  induction x as [| a x IH].
  - rewrite append_empty_l. cbn [before_last].
    by rewrite (before_last_none c e He), Ascii.eqb_refl.
  - rewrite append_cons. cbn [before_last]. by rewrite IH.
Qed.



(** The extension the code gives the artifact. *)
Lemma final_filename_shape (ft ff : pyval) (name ext : string) :
  val_lower ff = Ok ext →
  ∃ r, final_filename ft ff name = Ok r
       ∧ endswith r (wanted_extension ft ext) = true
       ∧ final_filename ft ff r = Ok r.
Proof.
  intros Hff. unfold final_filename, wanted_extension. rewrite Hff. cbn [rbind].
  destruct (decide (ft = PStr "audio")) as [_ | _].
  - destruct (String.eqb ext "wav").
    + exists (rsplit_head "." name +:+ ".wav"). split; [reflexivity |].
      split; [apply endswith_app |]. by rewrite (rsplit_head_app "." _ "wav").
    + exists (rsplit_head "." name +:+ ".mp3"). split; [reflexivity |].
      split; [apply endswith_app |]. by rewrite (rsplit_head_app "." _ "mp3").
  - destruct (endswith name ("." +:+ ext)) eqn:E.
    + exists name. by rewrite E.
    + exists (rsplit_head "." name +:+ "." +:+ ext). split; [reflexivity |].
      split; [apply endswith_app |]. by rewrite endswith_app.
Qed.



(** ** The job thread *)

(** What a job leaves alone: the entries of the other jobs, the threads and
    the log of file-system calls. *)
Lemma progress_hook_frame (id : string) (d : gmap string pyval) (w : world) :
  job_frame id w (snd (progress_hook id d w)).
Proof.
  unfold progress_hook, try_except, progress_hook_body, job_frame.
  destruct (decide (dict_get d "status" = PStr "downloading")).
  - unfold bind, lift, ret.
    destruct (total_is_positive (event_total d)) as [[|] |]; simpl.
    + destruct (py_truediv _ _); simpl; repeat split; try done;
        intros id' Hne; by rewrite lookup_insert_ne.
    + repeat split; try done. intros id' Hne. by rewrite lookup_insert_ne.
    + by repeat split.
  - destruct (decide (dict_get d "status" = PStr "finished")); simpl.
    + repeat split; try done. intros id' Hne. by rewrite lookup_insert_ne.
    + by repeat split.
Qed.

Lemma job_frame_trans (id : string) (w1 w2 w3 : world) :
  job_frame id w1 w2 → job_frame id w2 w3 → job_frame id w1 w3.
Proof.
  intros (H1 & H2 & H3) (H1' & H2' & H3'). repeat split; try congruence.
  intros id' Hne. by rewrite H1', H1.
Qed.

Lemma run_hooks_frame (id : string) (evs : list (gmap string pyval)) (w : world) :
  job_frame id w (snd (run_hooks id evs w)).
Proof.
  revert w. induction evs as [| d evs IH]; intros w; [by repeat split |].
  cbn [run_hooks]. unfold bind.
  pose proof (progress_hook_frame id d w) as Hd.
  pose proof (progress_hook_ok id d w) as Hok.
  destruct (progress_hook id d w) as [[[] | e] w0]; simpl in *; [| discriminate].
  eapply job_frame_trans; [exact Hd | apply IH].
Qed.


Lemma run_returns {A : Type} (p : result A * world) (r : result A) :
  fst p = r → p = (r, snd p).
Proof. intros <-. by destruct p. Qed.

Section JobOutcome.

Variable temp_dir : string.
Variable engine : ydl_opts → pyval → engine_run.
Variable str_exn : exn → string.
Variable valid_netloc : string → bool.

Local Abbreviation run_job :=
  (download_video_with_progress temp_dir engine str_exn valid_netloc).

(** The cases of one run of the job thread. *)
Lemma job_run_cases (id : string) (url ft ff q : pyval) (w : world) :
  (∀ e, clean_youtube_url_val valid_netloc url = Raise e →
        run_job id url ft ff q w = (Raise e, w))
  ∧ (∀ u, clean_youtube_url_val valid_netloc url = Ok u →
        ∃ w2 final,
          run_job id url ft ff q w = (Ok (), snd (store_set id final w2))
          ∧ job_frame id w w2
          ∧ ((∃ e, final = error_snapshot (str_exn e))
             ∨ (∃ path title ext,
                  final = completed_snapshot (basename path) path title
                  ∧ val_lower ff = Ok ext
                  ∧ endswith path (wanted_extension ft ext) = true))).
Proof.
  unfold download_video_with_progress. split.
  - intros e He. unfold bind at 1. unfold lift at 1. by rewrite He.
  - intros u Hu. unfold bind at 1. unfold lift at 1. rewrite Hu.
    unfold try_except, bind, lift, get_files, set_files.
    destruct (build_ydl_opts _ _ _ _ _) as [opts | e] eqn:Hopts.
    2: { exists w, (error_snapshot (str_exn e)). split; [reflexivity |].
         split; [by repeat split | left; by eexists]. }
    pose proof (run_hooks_frame id (events (engine opts u)) w) as Hframe.
    destruct (run_hooks_writes id (events (engine opts u)) w)
      as (w1 & hw & Hrun & _ & _ & _).
    rewrite Hrun in Hframe |- *. cbn [snd] in Hframe. simpl.
    set (w2 := {| download_status := download_status w1;
                  files := add_files (produced (engine opts u)) (files w1);
                  threads := threads w1; stdout := stdout w1; io_log := io_log w1;
                  writes := writes w1 |}).
    assert (Hframe2 : job_frame id w w2) by exact Hframe.
    assert (Hext : ∃ ext, val_lower ff = Ok ext).
    { unfold build_ydl_opts in Hopts.
      destruct (decide (ft = PStr "audio")); destruct (val_lower ff); try discriminate;
        by eexists. }
    destruct Hext as [ext Hext].
    destruct (outcome (engine opts u)) as [[info filename] | e]; simpl.
    + destruct (final_filename_shape ft ff filename ext Hext) as (r & -> & Hends & _).
      simpl. exists w2. eexists. split; [reflexivity |]. split; [exact Hframe2 |].
      right. by eexists _, _, _.
    + exists w2, (error_snapshot (str_exn e)). split; [reflexivity |].
      split; [exact Hframe2 | left; by eexists].
Qed.

(** X7: a run of the job thread that returns leaves the job's entry in a
    terminal state, completed with percent 100 or error with a message; the
    thread raises only when cleaning the URL raises, and then it has changed
    nothing, so the entry stays as it was. *)
Theorem job_ends_terminal (id : string) (url ft ff q : pyval) (w w' : world)
    (r : result unit) :
  run_job id url ft ff q w = (r, w') →
  match r with
  | Ok _ =>
      ∃ st, download_status w' !! id = Some st
            ∧ ((s_status st = "completed" ∧ s_percent st = Some (PInt 100))
               ∨ (s_status st = "error" ∧ is_Some (s_error st)))
  | Raise e => w' = w ∧ clean_youtube_url_val valid_netloc url = Raise e
  end.
Proof.
  intros Hrun. destruct (job_run_cases id url ft ff q w) as [Hraise Hok].
  destruct (clean_youtube_url_val valid_netloc url) as [u | e] eqn:Hclean.
  - destruct (Hok u eq_refl) as (w2 & final & Hrun' & _ & Hfinal).
    rewrite Hrun' in Hrun. injection Hrun as <- <-.
    exists final. split; [simpl; apply lookup_insert_eq |].
    destruct Hfinal as [[e ->] | (path & title & ext & -> & _)]; [right | left]; by split.
  - rewrite (Hraise e eq_refl) in Hrun. by injection Hrun as <- <-.
Qed.



End JobOutcome.

Local Abbreviation sample_job :=
  (download_video_with_progress "/tmp" sample_engine (λ _, "failed") (λ _, false)
     "id1" (PStr "https://www.youtube.com/watch?v=abc123") (PStr "audio") (PStr "mp3")
     (PStr "320") empty_world).

Lemma job_ends_terminal_sample :
  ∃ st, download_status (snd sample_job) !! "id1" = Some st
        ∧ ((s_status st = "completed" ∧ s_percent st = Some (PInt 100))
           ∨ (s_status st = "error" ∧ is_Some (s_error st))).
Proof.
  refine (job_ends_terminal "/tmp" sample_engine (λ _, "failed") (λ _, false) "id1" (PStr "https://www.youtube.com/watch?v=abc123")
            (PStr "audio") (PStr "mp3") (PStr "320") empty_world (snd sample_job) (Ok ()) _).
  apply run_returns. vm_compute. reflexivity.
Defined.



(** ** Streaming and cleanup *)

Lemma read_loop_lookup (fuel : nat) (data : list byte) (i : nat) (chunk : list byte) :
  read_loop fuel data !! i = Some chunk →
  chunk = take chunk_size (drop (i * chunk_size) data) ∧ chunk ≠ [].
Proof.
  revert data i. induction fuel as [| fuel IH]; intros data i; [done |].
  cbn [read_loop].
  destruct (take chunk_size data) as [| b rest] eqn:Htake; [done |].
  destruct i as [| i].
  - intros [= <-]. change (0 * chunk_size)%nat with 0%nat. by rewrite drop_0, Htake.
  - intros Hi. change (read_loop fuel (drop chunk_size data) !! i = Some chunk) in Hi.
    apply IH in Hi as [-> Hne]. split; [| exact Hne].
    rewrite drop_drop. reflexivity.
Qed.

Lemma read_loop_length (fuel : nat) (data : list byte) :
  (length data < fuel)%nat →
  length (read_loop fuel data) = ((length data + (chunk_size - 1)) / chunk_size)%nat.
Proof.
  pose proof chunk_size_pos as Hpos.
  revert data. induction fuel as [| fuel IH]; intros data Hlen; [lia |].
  cbn [read_loop].
  destruct (take chunk_size data) as [| b rest] eqn:Htake.
  - destruct data as [| b data]; [| destruct chunk_size; [lia | discriminate]].
    cbn [length]. symmetry. apply Nat.div_small. lia.
  - assert (Hdata : (0 < length data)%nat) by (destruct data; [discriminate | simpl; lia]).
    cbn [length]. rewrite IH by (rewrite length_drop; lia).
    rewrite length_drop.
    destruct (decide (length data ≤ chunk_size)%nat) as [Hle | Hgt].
    + replace (length data - chunk_size)%nat with 0%nat by lia.
      rewrite (Nat.div_small (0 + _)) by lia.
      apply (Nat.div_unique _ _ 1 (length data - 1)); lia.
    + replace (length data + (chunk_size - 1))%nat
        with ((length data - chunk_size + (chunk_size - 1)) + 1 * chunk_size)%nat by lia.
      rewrite Nat.div_add by lia. lia.
Qed.

(** X10: the stream cuts the file into consecutive pieces of 8192 bytes:
    chunk [i] is the slice that starts at byte [8192 * i], every chunk but
    the last is full, and the number of chunks is the length divided by 8192,
    rounded up. *)
Theorem file_chunks_slices (data : list byte) :
  length (file_chunks data) = ((length data + 8191) / 8192)%nat
  ∧ ∀ i chunk, file_chunks data !! i = Some chunk →
      chunk = take 8192 (drop (8192 * i) data)
      ∧ ((S i < length (file_chunks data))%nat → length chunk = 8192%nat).
Proof.
  assert (Hcs : chunk_size = 8192%nat) by reflexivity.
  split.
  - unfold file_chunks. rewrite read_loop_length by lia. by rewrite Hcs.
  - intros i chunk Hi. unfold file_chunks in *.
    pose proof (read_loop_lookup _ _ _ _ Hi) as [Hchunk _].
    rewrite Hcs, Nat.mul_comm in Hchunk. split; [exact Hchunk |].
    intros Hnext.
    destruct (lookup_lt_is_Some_2 _ _ Hnext) as [next Hn].
    apply read_loop_lookup in Hn as [Hn Hne]. rewrite Hcs in Hn.
    assert (Hlen : (S i * 8192 < length data)%nat).
    { destruct (decide (S i * 8192 < length data)%nat) as [| Hge]; [done |].
      rewrite drop_ge in Hn by lia. by rewrite take_nil in Hn. }
    rewrite Hchunk, length_take, length_drop. lia.
Qed.

(** X11: once the generator has started, it starts exactly one cleanup
    thread for its file and id, also when the file cannot be opened and when
    the client stops reading early; it changes neither the store nor the
    files, and what it yields is a prefix of the file.  A generator that is
    closed before it starts does nothing. *)
Theorem generate_schedules_cleanup (filepath id : string) (limit : option nat) (w : world) :
  ∃ r w',
    generate filepath id limit w = (r, w')
    ∧ download_status w' = download_status w
    ∧ files w' = files w
    ∧ (limit = Some 0%nat → r = Ok [] ∧ w' = w)
    ∧ (limit ≠ Some 0%nat →
         threads w' = (threads w ++ [TCleanup filepath id])%list
         ∧ (files w !! filepath = None → r = Raise FileNotFoundError)
         ∧ (∀ f, files w !! filepath = Some f →
              ∃ chunks, r = Ok chunks ∧ concat chunks `prefix_of` content f
                        ∧ (limit = None → concat chunks = content f))).
Proof.
  unfold generate.
  destruct (decide (limit = Some 0%nat)) as [-> | Hne].
  { exists (Ok []), w. by repeat split. }
  unfold_monad. simpl.
  destruct (files w !! filepath) as [f |] eqn:Hf; simpl;
    eexists _, _; (split; [reflexivity |]); simpl; repeat split; try done.
  intros f' [= <-]. eexists. split; [reflexivity |].
  split.
  - destruct limit as [n |]; [| by rewrite file_chunks_concat].
    rewrite <- (file_chunks_concat (content f)) at 2.
    rewrite <- (take_drop n (file_chunks (content f))) at 2.
    rewrite concat_app. by apply prefix_app_r.
  - intros ->. apply file_chunks_concat.
Qed.

(** ** The cleanup thread *)

(** X12: the cleanup thread never raises, whatever the state of the file and
    of the store; it touches no file but its own and no entry but its own,
    starts no thread and writes no status. *)
Theorem cleanup_never_raises (filepath id : string) (w : world) :
  ∃ w',
    delete_file_after_delay filepath id w = (Ok (), w')
    ∧ (∀ p, p ≠ filepath → files w' !! p = files w !! p)
    ∧ (∀ id', id' ≠ id → download_status w' !! id' = download_status w !! id')
    ∧ threads w' = threads w
    ∧ writes w' = writes w.
Proof.
  unfold delete_file_after_delay, cleanup_remove_file, cleanup_remove_entry, os_path_exists,
    os_remove.
  unfold_monad. simpl.
  destruct (files w !! filepath) as [f |] eqn:Hf; simpl.
  - rewrite Hf. simpl. destruct (deletable f); simpl.
    + destruct (download_status w !! id) eqn:Hid; simpl;
        eexists; (split; [reflexivity |]); simpl; repeat split; try done;
        intros x Hx; by rewrite lookup_delete_ne.
    + eexists. split; [reflexivity |]. by repeat split.
  - destruct (download_status w !! id) eqn:Hid; simpl;
      eexists; (split; [reflexivity |]); simpl; repeat split; try done;
      intros x Hx; by rewrite lookup_delete_ne.
Qed.

(** X13: when the file exists and cannot be deleted, the cleanup thread
    prints the error and stops: the file stays, and the entry stays too, so
    the job keeps answering completed. *)
Theorem cleanup_failure_leaves_entry (filepath id : string) (w : world) (f : file) :
  files w !! filepath = Some f →
  deletable f = false →
  ∃ w',
    delete_file_after_delay filepath id w = (Ok (), w')
    ∧ stdout w' = (stdout w ++ [LogDeleteError PermissionError])%list
    ∧ files w' = files w
    ∧ download_status w' = download_status w
    ∧ fst (download_status_endpoint id w') = fst (download_status_endpoint id w).
Proof.
  intros Hf Hdel.
  unfold delete_file_after_delay, cleanup_remove_file, cleanup_remove_entry, os_path_exists,
    os_remove.
  unfold_monad. repeat first [rewrite Hf | rewrite Hdel | progress simpl].
  eexists. split; [reflexivity |]. by repeat split.
Qed.

Lemma cleanup_failure_leaves_entry_sample :
  ∃ w',
    delete_file_after_delay "/tmp/id1.mp3" "id1" protected_run = (Ok (), w')
    ∧ stdout w' = (stdout protected_run ++ [LogDeleteError PermissionError])%list
    ∧ files w' = files protected_run
    ∧ download_status w' = download_status protected_run
    ∧ fst (download_status_endpoint "id1" w')
      = fst (download_status_endpoint "id1" protected_run).
Proof.
  exact (cleanup_failure_leaves_entry "/tmp/id1.mp3" "id1" protected_run
           {| content := []; deletable := false |} eq_refl eq_refl).
Defined.

(** X14: a second run of the cleanup thread for the same file and id, as
    after two fetches of one artifact, finds nothing left to do: it prints
    nothing and changes nothing but the log of file-system calls. *)
Theorem cleanup_twice (filepath id : string) (w w1 : world) :
  (files w !! filepath = None ∨ ∃ f, files w !! filepath = Some f ∧ deletable f = true) →
  delete_file_after_delay filepath id w = (Ok (), w1) →
  ∃ w2, delete_file_after_delay filepath id w1 = (Ok (), w2) ∧ same_state w1 w2.
Proof.
  intros Hfile.
  unfold delete_file_after_delay, cleanup_remove_file, cleanup_remove_entry, os_path_exists,
    os_remove.
  unfold_monad. simpl.
  destruct Hfile as [Hf | (f & Hf & Hdel)].
  - repeat first [rewrite Hf | progress simpl].
    destruct (download_status w !! id) eqn:Hid; simpl; intros [= <-]; simpl;
      repeat first [rewrite Hf | rewrite lookup_delete_eq | rewrite Hid | progress simpl];
      eexists; (split; [reflexivity |]); by repeat split.
  - repeat first [rewrite Hf | rewrite Hdel | progress simpl].
    destruct (download_status w !! id) eqn:Hid; simpl; intros [= <-]; simpl;
      repeat first [rewrite lookup_delete_eq | rewrite Hid | progress simpl];
      eexists; (split; [reflexivity |]); by repeat split.
Qed.

Lemma cleanup_twice_sample :
  ∃ w2, delete_file_after_delay "/tmp/id1.mp3" "id1"
          (snd (delete_file_after_delay "/tmp/id1.mp3" "id1" delivered_run)) = (Ok (), w2)
        ∧ same_state (snd (delete_file_after_delay "/tmp/id1.mp3" "id1" delivered_run)) w2.
Proof.
  refine (cleanup_twice "/tmp/id1.mp3" "id1" delivered_run _ _ _).
  - right. eexists. split; reflexivity.
  - apply run_returns. vm_compute. reflexivity.
Defined.

(** ** Submission and options *)

(** X15: right after a submission the job answers queued to a status lookup
    and 404 to a fetch, which touches no file; the entries of the other jobs
    are as before. *)
Theorem submitted_job_is_queued (data : gmap string pyval) (uuid4 : string) (w : world) :
  truthy (dict_get_default data "url" (PStr "")) = true →
  ∃ w',
    download data uuid4 w = (Ok (Json 200 (BSuccess uuid4)), w')
    ∧ download_status_endpoint uuid4 w' = (Ok (Json 200 (BStatus queued_snapshot)), w')
    ∧ download_file uuid4 w' = (Ok (Json 404 (BError "İndirme tamamlanmadı")), w')
    ∧ (∀ id, id ≠ uuid4 → download_status w' !! id = download_status w !! id).
Proof.
  intros Hurl. unfold download. rewrite Hurl. simpl.
  eexists. split; [reflexivity |].
  unfold download_status_endpoint, download_file. unfold_monad. simpl.
  rewrite lookup_insert_eq. simpl. repeat split.
  intros id Hne. by rewrite lookup_insert_ne.
Qed.

Lemma submitted_job_is_queued_sample :
  ∃ w',
    download mp3_submission "id1" empty_world = (Ok (Json 200 (BSuccess "id1")), w')
    ∧ download_status_endpoint "id1" w' = (Ok (Json 200 (BStatus queued_snapshot)), w')
    ∧ download_file "id1" w' = (Ok (Json 404 (BError "İndirme tamamlanmadı")), w')
    ∧ (∀ id, id ≠ "id1" → download_status w' !! id = download_status empty_world !! id).
Proof. exact (submitted_job_is_queued mp3_submission "id1" empty_world eq_refl). Defined.



(** ** Video metadata *)

Lemma Qcleb_le (x y : Qc) : Qcleb x y = true ↔ (x ≤ y)%Qc.
Proof. unfold Qcleb, Qcle. apply Qle_bool_iff. Qed.

Lemma Qeq_bool_Qc (x y : Qc) : Qeq_bool x y = true ↔ x = y.
Proof.
  rewrite Qeq_bool_iff. split; [apply Qc_is_canon | by intros ->].
Qed.

Lemma py_eqb_num (a b : pyval) (x y : Qc) :
  num_of a = Some x → num_of b = Some y → py_eqb a b = true ↔ x = y.
Proof. intros Ha Hb. unfold py_eqb. rewrite Ha, Hb. apply Qeq_bool_Qc. Qed.

Lemma py_eqb_refl (a : pyval) : py_eqb a a = true.
Proof.
  unfold py_eqb. destruct (num_of a) as [x |]; [by apply Qeq_bool_Qc |].
  by apply bool_decide_eq_true_2.
Qed.

Lemma sort_key_num (v : pyval) (x : Qc) : num_of v = Some x → sort_key v = x.
Proof. unfold sort_key. by intros ->. Qed.

Lemma scan_inv_start : scan_inv [] (PInt 0, []).
Proof.
  split; simpl.
  - by eexists.
  - by apply Qcleb_le.
  - by left.
  - intros v Hv. by apply elem_of_nil in Hv.
  - constructor.
  - intros fmt Hfmt. by apply elem_of_nil in Hfmt.
Qed.

Lemma existsb_py_eqb_false (v : pyval) (s : list pyval) (x : Qc) :
  num_of v = Some x →
  (∀ u, u ∈ s → is_Some (num_of u)) →
  existsb (py_eqb v) s = false →
  x ∉ (sort_key <$> s).
Proof.
  intros Hv Hs Hex Hin.
  apply list_elem_of_fmap in Hin as (u & Hu & Hin).
  destruct (Hs u Hin) as [y Hy].
  assert (Heq : py_eqb v u = true).
  { apply (py_eqb_num v u x y Hv Hy). rewrite Hu. by apply sort_key_num. }
  assert (Hex' : existsb (py_eqb v) s = true).
  { apply existsb_exists. exists u. split; [by apply list_elem_of_In | exact Heq]. }
  congruence.
Qed.

Lemma scan_format_inv (seen : list (gmap string pyval)) (st st' : pyval * list pyval)
    (fmt : gmap string pyval) :
  scan_inv seen st → scan_format st fmt = Ok st' → scan_inv (seen ++ [fmt])%list st'.
Proof.
  intros [Hnum Hnonneg Hin Helems Hnodup Hcover]. unfold scan_format.
  destruct st as [mh s]. simpl in *.
  destruct (truthy (dict_get fmt "height")) eqn:Htruthy.
  2: { intros [= <-]. split; simpl; try done.
       - intros v Hv. destruct (Helems v Hv) as (? & ? & ? & f & Hf & ?).
         repeat split; try done. exists f. split; [| done]. apply elem_of_app. by left.
       - intros f Hf Ht. apply elem_of_app in Hf as [Hf | Hf]; [by apply Hcover |].
         apply list_elem_of_singleton in Hf. subst f. congruence. }
  destruct Hnum as [m Hm].
  unfold py_gt. rewrite Hm.
  destruct (num_of (dict_get fmt "height")) as [x |] eqn:Hx; simpl; [| discriminate].
  rewrite (sort_key_num mh m Hm) in *.
  set (h := dict_get fmt "height") in *.
  assert (Hold : ∀ f, f ∈ seen → f ∈ (seen ++ [fmt])%list) by (intros f Hf; apply elem_of_app; by left).
  assert (Hnew : fmt ∈ (seen ++ [fmt])%list) by (apply elem_of_app; right; by apply list_elem_of_singleton).
  assert (Hset : ∀ v, v ∈ set_add h s ↔ v ∈ s ∨ (v = h ∧ existsb (py_eqb h) s = false)).
  { intros v. unfold set_add. destruct (existsb (py_eqb h) s).
    - split; [by left | intros [? | [_ ?]]; [done | discriminate]].
    - rewrite elem_of_app, list_elem_of_singleton. naive_solver. }
  assert (Hdup : NoDup (sort_key <$> set_add h s)).
  { unfold set_add. destruct (existsb (py_eqb h) s) eqn:Hex; [done |].
    rewrite fmap_app. apply NoDup_app. split; [done |]. split; [| apply NoDup_singleton].
    intros k Hk Hk'. apply list_elem_of_singleton in Hk'. subst k.
    rewrite (sort_key_num h x Hx) in Hk.
    by apply (existsb_py_eqb_false h s x Hx (λ u Hu, proj1 (Helems u Hu)) Hex). }
  assert (Hcov : ∀ f, f ∈ (seen ++ [fmt])%list → truthy (dict_get f "height") = true →
            ∃ v, v ∈ set_add h s ∧ py_eqb (dict_get f "height") v = true).
  { intros f Hf Ht. apply elem_of_app in Hf as [Hf | Hf].
    - destruct (Hcover f Hf Ht) as (v & Hv & Heq). exists v. split; [| done].
      apply Hset. by left.
    - apply list_elem_of_singleton in Hf. subst f. fold h.
      destruct (existsb (py_eqb h) s) eqn:Hex.
      + apply existsb_exists in Hex as (v & Hv & Heq). exists v. split; [| done].
        apply Hset. left. by apply list_elem_of_In.
      + exists h. split; [apply Hset; by right | apply py_eqb_refl]. }
  destruct (Qcltb m x) eqn:Hlt; intros [= <-]; split; simpl; try done.
  - rewrite (sort_key_num h x Hx). apply Qcltb_lt in Hlt.
    apply Qclt_le_weak. by eapply Qcle_lt_trans.
  - right. apply Hset.
    destruct (existsb (py_eqb h) s) eqn:Hex; [| by right].
    apply existsb_exists in Hex as (v & Hv & Heq). apply list_elem_of_In in Hv.
    destruct (Helems v Hv) as ([y Hy] & _ & Hle & _).
    apply (py_eqb_num h v x y Hx Hy) in Heq. subst y.
    rewrite (sort_key_num v x Hy) in Hle. apply Qcltb_lt in Hlt.
    exfalso. by apply (Qcle_not_lt _ _ Hle).
  - intros v Hv. rewrite (sort_key_num h x Hx). apply Qcltb_lt in Hlt.
    apply Hset in Hv as [Hv | [-> _]].
    + destruct (Helems v Hv) as (? & ? & Hle & f & Hf & ?). repeat split; try done.
      * apply Qclt_le_weak. by eapply Qcle_lt_trans.
      * exists f. split; [by apply Hold | done].
    + split; [by eexists |]. split; [done |].
      split; [rewrite (sort_key_num h x Hx); apply Qcle_refl | by exists fmt].
  - by rewrite (sort_key_num mh m Hm).
  - destruct Hin as [-> | Hin]; [by left | right]. apply Hset. by left.
  - intros v Hv. rewrite (sort_key_num mh m Hm). apply Qcltb_ge in Hlt.
    apply Hset in Hv as [Hv | [-> _]].
    + destruct (Helems v Hv) as (? & ? & Hle & f & Hf & ?). repeat split; try done.
      exists f. split; [by apply Hold | done].
    + split; [by eexists |]. split; [done |].
      split; [by rewrite (sort_key_num h x Hx) | by exists fmt].
Qed.

Lemma scan_formats_inv (seen fmts : list (gmap string pyval)) (st st' : pyval * list pyval) :
  scan_inv seen st → scan_formats st fmts = Ok st' → scan_inv (seen ++ fmts)%list st'.
Proof.
  revert seen st. induction fmts as [| fmt fmts IH]; intros seen st Hinv.
  - simpl. intros [= <-]. by rewrite app_nil_r.
  - cbn [scan_formats]. destruct (scan_format st fmt) as [st1 |] eqn:Hfmt; simpl; [| done].
    intros Hrest. rewrite (cons_middle fmt seen fmts), app_assoc.
    eapply IH; [| exact Hrest]. by eapply scan_format_inv.
Qed.

Global Instance ge_key_total : Total ge_key.
Proof.
  intros a b. unfold ge_key. rewrite !Qcleb_le.
  destruct (Qclt_le_dec (sort_key a) (sort_key b)) as [Hlt | Hle]; [right | left]; [| done].
  by apply Qclt_le_weak.
Qed.

Global Instance ge_key_trans : Transitive ge_key.
Proof.
  intros a b c. unfold ge_key. rewrite !Qcleb_le. intros H1 H2. by eapply Qcle_trans.
Qed.

(** Sorted downwards and without two equal numbers: strictly descending. *)
Lemma sorted_desc_strict (s : list pyval) :
  NoDup (sort_key <$> s) → StronglySorted gt_key (sorted_desc s).
Proof.
  intros Hnodup. unfold sorted_desc.
  pose proof (StronglySorted_merge_sort ge_key s) as Hsorted.
  assert (Hdup : NoDup (sort_key <$> merge_sort ge_key s)).
  { by rewrite merge_sort_Permutation. }
  induction Hsorted as [| a l Hl IH Hall]; [constructor |].
  rewrite fmap_cons in Hdup. apply NoDup_cons in Hdup as [Hnotin Hdup].
  constructor; [by apply IH |].
  apply Forall_forall. intros b Hb.
  rewrite Forall_forall in Hall. specialize (Hall b Hb).
  unfold ge_key in Hall. apply Qcleb_le in Hall. unfold gt_key.
  destruct (Qc_eq_dec (sort_key b) (sort_key a)) as [Heq | Hne].
  - exfalso. apply Hnotin. rewrite <- Heq. by apply list_elem_of_fmap_2.
  - apply Qcle_lt_or_eq in Hall as [? | ?]; [done | by destruct Hne].
Qed.

Lemma sorted_desc_elem_of (s : list pyval) (v : pyval) : v ∈ sorted_desc s ↔ v ∈ s.
Proof. unfold sorted_desc. by rewrite merge_sort_Permutation. Qed.

(** The first of the sorted set is the maximum found by the scan. *)
Lemma sorted_desc_head (s : list pyval) (mh : pyval) :
  NoDup (sort_key <$> s) →
  mh ∈ s →
  (∀ v, v ∈ s → (sort_key v ≤ sort_key mh)%Qc) →
  head (sorted_desc s) = Some mh.
Proof.
  intros Hnodup Hin Hmax.
  pose proof (sorted_desc_strict s Hnodup) as Hsorted.
  apply sorted_desc_elem_of in Hin.
  assert (Hmax' : ∀ v, v ∈ sorted_desc s → (sort_key v ≤ sort_key mh)%Qc).
  { intros v Hv. apply Hmax. by apply sorted_desc_elem_of. }
  destruct (sorted_desc s) as [| a l]; [by apply elem_of_nil in Hin |].
  simpl. f_equal.
  apply elem_of_cons in Hin as [-> | Hin]; [done |].
  apply StronglySorted_inv in Hsorted as [_ Hall].
  rewrite Forall_forall in Hall. specialize (Hall mh Hin). unfold gt_key in Hall.
  exfalso. apply (Qcle_not_lt (sort_key a) (sort_key mh)); [| exact Hall].
  apply Hmax'. apply elem_of_cons. by left.
Qed.

(** The loop over the tiers finds the first that fits. *)
Lemma first_tier_find (order : list Z) (max_height : pyval) (x : Qc) :
  num_of max_height = Some x →
  first_tier order max_height = Ok (find (λ q, Qcleb (Qc_of_Z q) x) order).
Proof.
  intros Hx. induction order as [| q rest IH]; [reflexivity |].
  cbn [first_tier find]. unfold py_le. cbn [num_of]. rewrite Hx. simpl.
  by destruct (Qcleb (Qc_of_Z q) x).
Qed.

Lemma find_descending (P : Z → bool) (order : list Z) :
  StronglySorted Z.gt order →
  match find P order with
  | Some q => q ∈ order ∧ P q = true ∧ ∀ q', q' ∈ order → P q' = true → q' ≤ q
  | None => ∀ q', q' ∈ order → P q' = false
  end.
Proof.
  induction 1 as [| q rest Hsorted IH Hall]; simpl.
  - intros q' Hq'. by apply elem_of_nil in Hq'.
  - destruct (P q) eqn:Hq.
    + split; [apply elem_of_cons; by left |]. split; [done |].
      intros q' Hq' _. apply elem_of_cons in Hq' as [-> | Hq']; [lia |].
      rewrite Forall_forall in Hall. specialize (Hall q' Hq'). lia.
    + destruct (find P rest) as [q0 |].
      * destruct IH as (Hin & HP & Hmax). split; [apply elem_of_cons; by right |].
        split; [done |]. intros q' Hq' HP'.
        apply elem_of_cons in Hq' as [-> | Hq']; [congruence | by apply Hmax].
      * intros q' Hq'. apply elem_of_cons in Hq' as [-> | Hq']; [done | by apply IH].
Qed.

Lemma quality_order_descending : StronglySorted Z.gt quality_order.
Proof. unfold quality_order. repeat constructor; lia. Qed.

(** What a summary was computed from. *)
Lemma summarize_info_ok (info0 : video_info) (t th d u vc : pyval) (mq : string)
    (mh : pyval) (aq : list pyval) :
  summarize_info info0 = Ok (InfoOk t th d u vc mq mh aq) →
  ∃ info s tier,
    (info_entries info0 = None → info = info0)
    ∧ scan_formats (PInt 0, []) (default [] (info_formats info)) = Ok (mh, s)
    ∧ first_tier quality_order mh = Ok tier
    ∧ mq = (if py_eqb mh (PInt 0) then "best"
            else match tier with
                 | Some q => str_of_int q +:+ "p"
                 | None => "best"
                 end)
    ∧ aq = sorted_desc s.
Proof.
  unfold summarize_info.
  match goal with
  | |- match ?c with Some _ => _ | None => _ end = _ → _ => set (chosen := c)
  end.
  assert (Hplain : ∀ info, info_entries info0 = None → chosen = Some info → info = info0).
  { intros info Hnone. unfold chosen. rewrite Hnone. simpl.
    congruence. }
  destruct chosen as [info |]; [| discriminate].
  destruct (scan_formats _ _) as [[mh' s] |] eqn:Hscan; cbn [rbind fst snd]; [| intros [=]].
  destruct (first_tier quality_order mh') as [tier |] eqn:Htier; cbn [rbind]; [| intros [=]].
  intros [= <- <- <- <- <- <- <- <-].
  exists info, s, tier. repeat split; try done.
  intros Hnone. by apply Hplain.
Qed.

(** X17: in a summary, available_qualities is strictly descending, so it has
    no two equal numbers; every element is a non-zero number and at most
    max_height; max_height is not negative, and unless it is 0 it is the first
    element of the list. *)
Theorem available_qualities_descending (info : video_info) (t th d u vc : pyval)
    (mq : string) (mh : pyval) (aq : list pyval) :
  summarize_info info = Ok (InfoOk t th d u vc mq mh aq) →
  StronglySorted gt_key aq
  ∧ Forall (λ v, is_Some (num_of v) ∧ truthy v = true ∧ (sort_key v ≤ sort_key mh)%Qc) aq
  ∧ is_Some (num_of mh)
  ∧ (0 ≤ sort_key mh)%Qc
  ∧ (mh = PInt 0 ∨ head aq = Some mh).
Proof.
  intros Hsum. apply summarize_info_ok in Hsum as (i & s & tier & _ & Hscan & _ & _ & ->).
  pose proof (scan_formats_inv [] _ _ _ scan_inv_start Hscan)
    as [Hnum Hnonneg Hin Helems Hnodup _].
  simpl in *. split; [by apply sorted_desc_strict |]. split; [| split; [done |]; split; [done |]].
  - apply Forall_forall. intros v Hv. rewrite sorted_desc_elem_of in Hv.
    destruct (Helems v Hv) as (? & ? & ? & _). by repeat split.
  - destruct Hin as [-> | Hin]; [by left | right].
    apply sorted_desc_head; [done | done |]. intros v Hv. by destruct (Helems v Hv) as (_ & _ & ? & _).
Qed.

(** X18: for a single video, the elements of available_qualities are heights
    of its formats, and every format with a truthy height has its height, as
    a number, in the list. *)
Theorem available_qualities_are_heights (info : video_info) (t th d u vc : pyval)
    (mq : string) (mh : pyval) (aq : list pyval) :
  info_entries info = None →
  summarize_info info = Ok (InfoOk t th d u vc mq mh aq) →
  (∀ v, v ∈ aq → ∃ fmt, fmt ∈ default [] (info_formats info) ∧ dict_get fmt "height" = v)
  ∧ (∀ fmt, fmt ∈ default [] (info_formats info) → truthy (dict_get fmt "height") = true →
       ∃ v, v ∈ aq ∧ py_eqb (dict_get fmt "height") v = true).
Proof.
  intros Hplain Hsum.
  apply summarize_info_ok in Hsum as (i & s & tier & Hi & Hscan & _ & _ & ->).
  rewrite (Hi Hplain) in Hscan.
  pose proof (scan_formats_inv [] _ _ _ scan_inv_start Hscan) as [_ _ _ Helems _ Hcover].
  simpl in *. split.
  - intros v Hv. rewrite sorted_desc_elem_of in Hv. by destruct (Helems v Hv) as (_ & _ & _ & ?).
  - intros fmt Hfmt Ht. destruct (Hcover fmt Hfmt Ht) as (v & Hv & Heq).
    exists v. split; [by apply sorted_desc_elem_of | done].
Qed.

(** X19: max_quality is the largest tier of 2160, 1440, 1080, 720, 480, 360,
    240, 144 that is at most max_height, written with a [p], and [best] when
    max_height is below 144; in both cases the video branch of a download
    accepts it as its quality, whatever the container. *)
Theorem max_quality_is_best_tier (info : video_info) (t th d u vc : pyval)
    (mq : string) (mh : pyval) (aq : list pyval) :
  summarize_info info = Ok (InfoOk t th d u vc mq mh aq) →
  ((mq = "best" ∧ (sort_key mh < Qc_of_Z 144)%Qc)
   ∨ (∃ q, q ∈ quality_order ∧ mq = str_of_int q +:+ "p"
           ∧ (Qc_of_Z q ≤ sort_key mh)%Qc
           ∧ ∀ q', q' ∈ quality_order → (Qc_of_Z q' ≤ sort_key mh)%Qc → q' ≤ q))
  ∧ ∀ video_format, ∃ fs, format_string video_format (PStr mq) = Ok fs.
Proof.
  intros Hsum. apply summarize_info_ok in Hsum as (i & s & tier & _ & Hscan & Htier & Hmq & _).
  pose proof (scan_formats_inv [] _ _ _ scan_inv_start Hscan) as [[x Hx] _ _ _ _ _].
  simpl in Hx. rewrite (sort_key_num mh x Hx).
  assert (Htier' : tier = find (λ q, Qcleb (Qc_of_Z q) x) quality_order)
    by (rewrite (first_tier_find _ _ x Hx) in Htier; congruence).
  clear Htier. subst tier.
  pose proof (find_descending (λ q, Qcleb (Qc_of_Z q) x) quality_order
                quality_order_descending) as Hfind.
  assert (Hcases : (mq = "best" ∧ (x < Qc_of_Z 144)%Qc)
            ∨ (∃ q, q ∈ quality_order ∧ mq = str_of_int q +:+ "p" ∧ (Qc_of_Z q ≤ x)%Qc
                    ∧ ∀ q', q' ∈ quality_order → (Qc_of_Z q' ≤ x)%Qc → q' ≤ q)).
  { subst mq. destruct (py_eqb mh (PInt 0)) eqn:Hzero.
    - left. split; [done |].
      apply (py_eqb_num mh (PInt 0) x (Qc_of_Z 0) Hx eq_refl) in Hzero. subst x. reflexivity.
    - revert Hfind. destruct (find _ quality_order) as [q |]; intros Hfind.
      + right. destruct Hfind as (Hin & Hq & Hmax). exists q.
        split; [done |]. split; [done |]. split; [by apply Qcleb_le |].
        intros q' Hq' Hle. apply Hmax; [done | by apply Qcleb_le].
      + left. split; [done |].
        assert (H144 : Qcleb (Qc_of_Z 144) x = false).
        { apply Hfind. unfold quality_order. set_solver. }
        apply Qcltb_lt. unfold Qcltb. unfold Qcleb in H144. by rewrite H144. }
  split; [exact Hcases |].
  intros vf. destruct Hcases as [[-> _] | (q & Hq & -> & _)].
  - unfold format_string. rewrite decide_True by done. by eexists.
  - assert (Hq0 : 0 ≤ q).
    { unfold quality_order in Hq. repeat (apply elem_of_cons in Hq as [-> | Hq]; [lia |]).
      by apply elem_of_nil in Hq. }
    destruct (quality_np_parses q Hq0) as (Hbest & Hrep & Hint).
    unfold quality_np in *. unfold format_string.
    rewrite decide_False by exact Hbest. rewrite Hrep. simpl. rewrite Hint. simpl.
    destruct (String.eqb vf "mp4"); [by eexists |].
    destruct (String.eqb vf "mkv"); by eexists.
Qed.

Lemma available_qualities_descending_sample :
  StronglySorted gt_key [PInt 1080; PInt 720; PInt 360]
  ∧ Forall (λ v, is_Some (num_of v) ∧ truthy v = true
                 ∧ (sort_key v ≤ sort_key (PInt 1080))%Qc)
      [PInt 1080; PInt 720; PInt 360]
  ∧ is_Some (num_of (PInt 1080))
  ∧ (0 ≤ sort_key (PInt 1080))%Qc
  ∧ (PInt 1080 = PInt 0 ∨ head [PInt 1080; PInt 720; PInt 360] = Some (PInt 1080)).
Proof.
  refine (available_qualities_descending sample_info (PStr "Song") (PStr "") (PInt 0)
            (PStr "") (PInt 0) "1080p" (PInt 1080) [PInt 1080; PInt 720; PInt 360] _).
  vm_compute. reflexivity.
Defined.

Lemma available_qualities_are_heights_sample :
  (∀ v, v ∈ [PInt 1080; PInt 720; PInt 360] →
     ∃ fmt, fmt ∈ default [] (info_formats sample_info) ∧ dict_get fmt "height" = v)
  ∧ (∀ fmt, fmt ∈ default [] (info_formats sample_info) →
       truthy (dict_get fmt "height") = true →
       ∃ v, v ∈ [PInt 1080; PInt 720; PInt 360] ∧ py_eqb (dict_get fmt "height") v = true).
Proof.
  refine (available_qualities_are_heights sample_info (PStr "Song") (PStr "") (PInt 0)
            (PStr "") (PInt 0) "1080p" (PInt 1080) [PInt 1080; PInt 720; PInt 360] eq_refl _).
  vm_compute. reflexivity.
Defined.

Lemma max_quality_is_best_tier_sample :
  (("1080p" = "best" ∧ (sort_key (PInt 1080) < Qc_of_Z 144)%Qc)
   ∨ (∃ q, q ∈ quality_order ∧ "1080p" = str_of_int q +:+ "p"
           ∧ (Qc_of_Z q ≤ sort_key (PInt 1080))%Qc
           ∧ ∀ q', q' ∈ quality_order → (Qc_of_Z q' ≤ sort_key (PInt 1080))%Qc → q' ≤ q))
  ∧ ∀ video_format, ∃ fs, format_string video_format (PStr "1080p") = Ok fs.
Proof.
  refine (max_quality_is_best_tier sample_info (PStr "Song") (PStr "") (PInt 0)
            (PStr "") (PInt 0) "1080p" (PInt 1080) [PInt 1080; PInt 720; PInt 360] _).
  vm_compute. reflexivity.
Defined.

Lemma filter_falsy_entries (skipped rest : list (option video_info)) (e : video_info) :
  Forall (λ x, entry_truthy x = false) skipped →
  entry_truthy (Some e) = true →
  filter (λ x, entry_truthy x = true) (skipped ++ Some e :: rest)%list
  = Some e :: filter (λ x, entry_truthy x = true) rest.
Proof.
  intros Hskip He. induction Hskip as [| x l Hx _ IH]; simpl.
  - by rewrite filter_cons_True.
  - rewrite filter_cons_False by congruence. exact IH.
Qed.

Lemma filter_all_falsy (es : list (option video_info)) :
  Forall (λ x, entry_truthy x = false) es →
  filter (λ x, entry_truthy x = true) es = [].
Proof.
  induction 1 as [| x l Hx _ IH]; [reflexivity |].
  rewrite filter_cons_False by congruence. exact IH.
Qed.

(** X20: of a playlist, the summary is that of its first entry that is not
    empty, read as a single video: the playlist's own formats play no part
    and a playlist nested in the entry is not followed; a playlist with no
    such entry gives the error message instead. *)
Theorem playlist_uses_first_entry (fields : gmap string pyval)
    (formats : option (list (gmap string pyval))) (es : list (option video_info)) :
  dict_get fields "_type" = PStr "playlist" →
  (Forall (λ x, entry_truthy x = false) es →
     summarize_info (VideoInfo fields formats (Some es))
     = Ok (InfoError "Playlist boş veya erişilemiyor"))
  ∧ (∀ skipped rest f fm en,
       es = (skipped ++ Some (VideoInfo f fm en) :: rest)%list →
       Forall (λ x, entry_truthy x = false) skipped →
       entry_truthy (Some (VideoInfo f fm en)) = true →
       summarize_info (VideoInfo fields formats (Some es))
       = summarize_info (VideoInfo f fm None)).
Proof.
  intros Htype. unfold summarize_info. cbn [info_entries info_fields default]. unfold id.
  rewrite Htype.
  rewrite (bool_decide_eq_true_2 (is_Some (Some es))) by by eexists.
  rewrite (bool_decide_eq_true_2 (PStr "playlist" = PStr "playlist")) by reflexivity.
  cbn [andb]. split.
  - intros Hes. by rewrite filter_all_falsy.
  - intros skipped rest f fm en -> Hskip He.
    rewrite (filter_falsy_entries skipped rest _ Hskip He).
    rewrite (bool_decide_eq_false_2 (is_Some None)) by (by intros [? ?]).
    reflexivity.
Qed.

Lemma playlist_uses_first_entry_sample :
  summarize_info sample_playlist = summarize_info sample_info.
Proof.
  refine (proj2 (playlist_uses_first_entry playlist_fields None
                   [None; Some (VideoInfo sample_fields (Some sample_formats) (Some []))]
                   eq_refl)
            [None] [] sample_fields (Some sample_formats) (Some []) eq_refl _ eq_refl).
  repeat constructor.
Defined.

Section InfoEndpoint.

Variable valid_netloc : string → bool.
Variable extract_info : pyval → result video_info.
Variable str_exn : exn → string.

(** X21: POST /api/info answers 400 only when the URL is missing or empty;
    every failure of the engine or of the summary is answered with status
    200 and an error body carrying the text of the exception; the handler
    raises only when cleaning the URL raises. *)
Theorem get_info_status (data : gmap string pyval) :
  let url := dict_get_default data "url" (PStr "") in
  (truthy url = false →
     get_info valid_netloc extract_info str_exn data = Ok (400%nat, InfoError "URL gerekli"))
  ∧ (truthy url = true →
       (∀ e, get_info valid_netloc extract_info str_exn data = Raise e
             ↔ clean_youtube_url_val valid_netloc url = Raise e)
       ∧ (∀ u, clean_youtube_url_val valid_netloc url = Ok u →
            get_info valid_netloc extract_info str_exn data
            = Ok (200%nat,
                  match extract_info u with
                  | Raise e => InfoError (str_exn e)
                  | Ok info =>
                      match summarize_info info with
                      | Raise e => InfoError (str_exn e)
                      | Ok body => body
                      end
                  end))).
Proof.
  intros url. unfold get_info. fold url. split.
  - by intros ->.
  - intros ->. cbn [negb]. unfold get_video_info.
    destruct (clean_youtube_url_val valid_netloc url) as [u |] eqn:Hclean; cbn [rbind].
    + split.
      * intros e. split; [| discriminate].
        destruct (extract_info u) as [info |]; cbn [rbind rcatch]; [| discriminate].
        destruct (summarize_info info); discriminate.
      * intros u' [= <-].
        destruct (extract_info u) as [info |]; cbn [rbind rcatch]; [| reflexivity].
        destruct (summarize_info info); reflexivity.
    + split; [| discriminate]. intros e'. split; congruence.
Qed.

End InfoEndpoint.

(** ** Search *)

Lemma collect_entries_acc (float_str : Qc → string)
    (entries : list (option (gmap string pyval))) (acc : list search_result) :
  collect_entries float_str entries acc
  = (acc ++ (flat_result float_str <$> truthy_entries entries))%list.
Proof.
  revert acc. induction entries as [| e rest IH]; intros acc.
  - simpl. by rewrite app_nil_r.
  - cbn [collect_entries]. rewrite IH. unfold truthy_entries. cbn [omap list_omap].
    destruct e as [d |]; [| reflexivity].
    destruct (flat_entry_truthy (Some d)); [| reflexivity].
    rewrite fmap_cons, <- app_assoc. reflexivity.
Qed.

Lemma search_id_pattern_canonical (id : string) :
  all_chars plain_id_char id = true → id ≠ "" →
  search_id_pattern (canonical_url id) = Some id.
Proof.
  intros Hplain Hne.
  unfold canonical_url. repeat rewrite append_cons. rewrite append_empty_l.
  repeat rewrite search_id_pattern_skip by reflexivity.
  apply search_id_pattern_here.
  unfold match_id_pattern.
  match goal with
  | |- context [after_prefix "youtube.com/watch?v=" ?t] =>
      replace (after_prefix "youtube.com/watch?v=" t) with (Some id)
        by (unfold after_prefix; simpl; by destruct id)
  end.
  cbn [mbind option_bind]. by rewrite (id_group_plain id Hplain Hne).
Qed.

Section SearchProperties.

Variable float_str : Qc → string.
Variable container_str : json → string.
Variable str_exn : search_exn → string.
Variable search_extract : string → result (option (list (option (gmap string pyval)))).
Variable api_get : pyval → pyval → string → result json.
Variable valid_netloc : string → bool.

(** X22: without an API key the search asks yt-dlp for
    [ytsearch<max_results>:<query>] and never the Data API; it answers 200
    with one result for each entry that is neither None nor empty, in the
    order of the entries, and 500 with the text of the exception when the
    engine raises. *)
Theorem search_without_key (data : gmap string pyval) :
  let query := dict_get_default data "query" (PStr "") in
  let max_results := dict_get_default data "max_results" (PInt 10) in
  let search_url :=
    "ytsearch" +:+ py_str float_str max_results +:+ ":" +:+ py_str float_str query in
  truthy query = true →
  search "" float_str container_str str_exn search_extract api_get data
  = match search_extract search_url with
    | Raise e => (500%nat, SBError (str_exn (Known e)))
    | Ok None => (200%nat, SBResults [])
    | Ok (Some entries) =>
        (200%nat, SBResults (flat_result float_str <$> truthy_entries entries))
    end.
Proof.
  intros query max_results search_url Hq. unfold search. fold query max_results.
  rewrite Hq. cbn [negb]. unfold search_youtube. cbn [String.eqb]. fold search_url.
  destruct (search_extract search_url) as [[entries |] |]; try reflexivity.
  by rewrite collect_entries_acc.
Qed.

(** X23: the URL of a search result whose entry has a plain, non-empty id is
    the canonical watch URL of that id; clean_youtube_url leaves it as it is
    and extract_video_id reads the id back from it. *)
Theorem search_result_url_round_trip (entry : gmap string pyval) (id : string) :
  entry !! "id" = Some (PStr id) →
  all_chars plain_id_char id = true → id ≠ "" →
  let url := result_url (flat_result float_str entry) in
  url = canonical_url id
  ∧ clean_youtube_url valid_netloc url = Ok url
  ∧ extract_video_id valid_netloc url = Ok (Some id).
Proof.
  intros Hid Hplain Hne url.
  assert (Hurl : url = canonical_url id).
  { unfold url, flat_result, result_url, dict_get_default. by rewrite Hid. }
  rewrite Hurl. split; [reflexivity |].
  pose proof (clean_canonical valid_netloc id (plain_id_safe id Hplain)) as Hclean.
  split; [exact Hclean |].
  unfold extract_video_id. rewrite Hclean. cbn [rbind].
  by rewrite (search_id_pattern_canonical id Hplain Hne).
Qed.

Lemma subscript_ok (v x : json) (k : string) :
  subscript v k = SOk x ↔ ∃ m, v = JObj m ∧ m !! k = Some x.
Proof.
  split.
  - destruct v as [| | | | | | m]; simpl; try discriminate.
    destruct (m !! k) as [y |] eqn:Hy; [| discriminate]. intros [= <-]. by exists m.
  - intros (m & -> & Hk). simpl. by rewrite Hk.
Qed.

Lemma sbind_ok {A B : Type} (r : sresult A) (k : A → sresult B) (b : B) :
  sbind r k = SOk b ↔ ∃ a, r = SOk a ∧ k a = SOk b.
Proof.
  split.
  - destruct r as [a |]; simpl; [| discriminate]. intros H. by exists a.
  - intros (a & -> & H). exact H.
Qed.

(** X24: the Data API branch builds a result only from an item that has
    every field it reads ([id.videoId], and under [snippet]: [title],
    [thumbnails.default.url], [channelTitle], [description]); the result
    carries these values and the watch URL made of the video id. *)
Theorem item_result_complete (item : json) (r : search_result) :
  item_result float_str container_str item = SOk r ↔
  ∃ video_id title thumbnail channel description,
    complete_item item video_id title thumbnail channel description
    ∧ r = ApiResult video_id title
            ("https://www.youtube.com/watch?v=" +:+ json_str float_str container_str video_id)
            thumbnail channel description.
Proof.
  unfold item_result, complete_item. split.
  - intros H.
    apply sbind_ok in H as (video_id & Hid & H).
    apply sbind_ok in Hid as (i & Hi & Hvid).
    apply sbind_ok in H as (title & Htitle & H).
    apply sbind_ok in Htitle as (sn & Hsn & Htitle).
    apply sbind_ok in H as (thumbnail & Hth & H).
    apply sbind_ok in Hth as (d & Hd & Hurl).
    apply sbind_ok in Hd as (th & Hth & Hd).
    apply sbind_ok in Hth as (sn2 & Hsn2 & Hth).
    apply sbind_ok in H as (channel & Hch & H).
    apply sbind_ok in Hch as (sn3 & Hsn3 & Hch).
    apply sbind_ok in H as (description & Hdesc & H).
    apply sbind_ok in Hdesc as (sn4 & Hsn4 & Hdesc).
    injection H as <-.
    apply subscript_ok in Hi as (m & -> & Hi).
    apply subscript_ok in Hsn as (m' & [= <-] & Hsn).
    apply subscript_ok in Hsn2 as (m' & [= <-] & Hsn2).
    apply subscript_ok in Hsn3 as (m' & [= <-] & Hsn3).
    apply subscript_ok in Hsn4 as (m' & [= <-] & Hsn4).
    rewrite Hsn in Hsn2, Hsn3, Hsn4. injection Hsn2 as <-. injection Hsn3 as <-.
    injection Hsn4 as <-.
    apply subscript_ok in Hvid as (im & -> & Hvid).
    apply subscript_ok in Htitle as (snm & -> & Htitle).
    apply subscript_ok in Hth as (snm' & [= <-] & Hth).
    apply subscript_ok in Hch as (snm' & [= <-] & Hch).
    apply subscript_ok in Hdesc as (snm' & [= <-] & Hdesc).
    apply subscript_ok in Hd as (thm & -> & Hd).
    apply subscript_ok in Hurl as (dm & -> & Hurl).
    exists video_id, title, thumbnail, channel, description.
    split; [| reflexivity]. by exists m, im, snm, thm, dm.
  - intros (video_id & title & thumbnail & channel & description
            & (m & i & sn & th & d & -> & Hi & Hvid & Hsn & Htitle & Hth & Hd & Hurl & Hch
               & Hdesc) & ->).
    simpl. rewrite Hi, Hsn. simpl. rewrite Hvid, Htitle, Hth, Hch, Hdesc. simpl.
    rewrite Hd. simpl. by rewrite Hurl.
Qed.

Lemma collect_items_ok (items : list json) (rs acc : list search_result) :
  Forall2 (λ item r, item_result float_str container_str item = SOk r) items rs →
  collect_items float_str container_str items acc = SOk (acc ++ rs)%list.
Proof.
  intros H. revert acc. induction H as [| item r items rs Hr _ IH]; intros acc.
  - simpl. by rewrite app_nil_r.
  - cbn [collect_items]. rewrite Hr. cbn [sbind]. rewrite IH, <- app_assoc. reflexivity.
Qed.

Lemma collect_items_raise (items : list json) (acc : list search_result) (item : json)
    (e : search_exn) :
  item ∈ items →
  item_result float_str container_str item = SRaise e →
  ∃ e', collect_items float_str container_str items acc = SRaise e'.
Proof.
  intros Hin He. revert acc. induction items as [| x rest IH]; intros acc.
  - by apply elem_of_nil in Hin.
  - cbn [collect_items].
    destruct (item_result float_str container_str x) as [r | e0] eqn:Hx; cbn [sbind].
    + apply elem_of_cons in Hin as [-> | Hin]; [congruence |]. by apply IH.
    + by exists e0.
Qed.

(** X25: with an API key the search is all or nothing: if the items of the
    response all give a result, it answers 200 with one result per item, in
    order; if a single item does not, it answers 500 and none of the other
    results is returned. *)
Theorem search_with_key_all_or_nothing (key : string) (data : gmap string pyval)
    (m : gmap string json) (items : list json) :
  let query := dict_get_default data "query" (PStr "") in
  let max_results := dict_get_default data "max_results" (PInt 10) in
  key ≠ "" →
  truthy query = true →
  api_get query max_results key = Ok (JObj m) →
  m !! "items" = Some (JArr items) →
  (∀ rs, Forall2 (λ item r, item_result float_str container_str item = SOk r) items rs →
     search key float_str container_str str_exn search_extract api_get data
     = (200%nat, SBResults rs))
  ∧ (∀ item e, item ∈ items → item_result float_str container_str item = SRaise e →
       ∃ msg, search key float_str container_str str_exn search_extract api_get data
              = (500%nat, SBError msg)).
Proof.
  intros query max_results Hkey Hq Hget Hitems.
  unfold search. fold query max_results. rewrite Hq. cbn [negb]. unfold search_youtube.
  destruct (String.eqb_spec key "") as [-> | _]; [done |].
  rewrite Hget. cbn [sbind]. rewrite Hitems. cbn [default]. unfold id. cbn [sbind].
  change (iterate (JArr items)) with (SOk items). cbn [sbind].
  split.
  - intros rs Hrs. by rewrite (collect_items_ok items rs [] Hrs).
  - intros item e Hin He.
    destruct (collect_items_raise items [] item e Hin He) as [e' ->]. by eexists.
Qed.

End SearchProperties.

Lemma search_without_key_sample :
  search "" (λ _, "") (λ _, "") (λ _, "failed") sample_search_extract sample_api_get
    sample_query
  = (200%nat, SBResults [flat_result (λ _, "") sample_entry]).
Proof.
  exact (search_without_key (λ _, "") (λ _, "") (λ _, "failed") sample_search_extract
           sample_api_get sample_query eq_refl).
Defined.

Lemma search_result_url_round_trip_sample :
  result_url (flat_result (λ _, "") sample_entry) = canonical_url "abc123"
  ∧ clean_youtube_url (λ _, false) (result_url (flat_result (λ _, "") sample_entry))
    = Ok (result_url (flat_result (λ _, "") sample_entry))
  ∧ extract_video_id (λ _, false) (result_url (flat_result (λ _, "") sample_entry))
    = Ok (Some "abc123").
Proof.
  refine (search_result_url_round_trip (λ _, "") (λ _, false) sample_entry "abc123"
            eq_refl eq_refl _).
  discriminate.
Defined.

Lemma search_with_key_all_or_nothing_sample :
  ∃ msg, search "key" (λ _, "") (λ _, "") (λ _, "failed") sample_search_extract
           sample_api_get sample_query
         = (500%nat, SBError msg).
Proof.
  refine (proj2 (search_with_key_all_or_nothing (λ _, "") (λ _, "") (λ _, "failed")
                   sample_search_extract sample_api_get "key" sample_query
                   sample_api_fields [broken_item] _ eq_refl eq_refl eq_refl)
            broken_item (Known TypeError) _ eq_refl).
  - discriminate.
  - apply list_elem_of_singleton. reflexivity.
Defined.

(** ** The output template *)

Lemma startswith_before_tmp (s : string) :
  startswith (s +:+ ".tmp") ".tmp" = true → s ≠ "" → startswith s ".tmp" = true.
Proof.
  destruct s as [| a [| b [| c [| d s]]]]; [done | | | |];
    rewrite ?append_cons, ?append_empty_l; cbn [startswith];
    intros H _; revert H;
    repeat match goal with
           | |- context [Ascii.eqb ?x ?y] =>
               is_var x; destruct (Ascii.eqb_spec x y) as [-> | ?]
           end; cbn; try done.
  intros _. by destruct s.
Qed.

Lemma contains_cons_false (needle : string) (a : ascii) (s : string) :
  contains needle (String a s) = false →
  startswith (String a s) needle = false ∧ contains needle s = false.
Proof. cbn [contains]. by intros [? ?]%orb_false_iff. Qed.

Lemma replace_tmp_suffix (new base : string) :
  contains ".tmp" base = false →
  replace ".tmp" new (base +:+ ".tmp") = base +:+ new.
Proof.
  unfold replace. induction base as [| a s IH]; intros Hc.
  - rewrite !append_empty_l. cbn. by rewrite append_empty_r.
  - apply contains_cons_false in Hc as [Hs Hc].
    rewrite !append_cons. cbn [replace_from].
    destruct (startswith (String a (s +:+ ".tmp")) ".tmp") eqn:Hst.
    + rewrite <- append_cons in Hst. apply startswith_before_tmp in Hst; [congruence | done].
    + by rewrite IH.
Qed.

Lemma startswith_empty (s : string) : startswith s "" = true.
Proof. by destruct s. Qed.

Lemma path_join_suffix (a b suffix : string) :
  startswith suffix "/" = false →
  path_join a (b +:+ suffix) = path_join a b +:+ suffix.
Proof.
  intros Hsuf. unfold path_join.
  assert (Hb : startswith (b +:+ suffix) "/" = startswith b "/").
  { destruct b as [| c b]; [by rewrite append_empty_l, Hsuf |].
    rewrite append_cons. cbn [startswith]. by rewrite !startswith_empty. }
  rewrite Hb. destruct (startswith b "/"); [reflexivity |].
  destruct (String.eqb a "" || endswith a "/"); by rewrite !append_assoc.
Qed.

Lemma append_inj_l (a b c : string) : a +:+ b = a +:+ c → b = c.
Proof.
  induction a as [| x a IH]; [by rewrite !append_empty_l |].
  rewrite !append_cons. intros [= H]. by apply IH.
Qed.

(** X26: the output template given to the engine is the job's own path in
    the temporary directory, [<temp_dir>/<id>.%(ext)s], as long as [.tmp]
    occurs nowhere in that path (every occurrence is replaced, not only the
    last); two jobs with different relative ids never share a template. *)
Theorem outtmpl_of_job (temp_dir id : string) (ft ff q : pyval) (opts : ydl_opts) :
  build_ydl_opts id (path_join temp_dir (id +:+ ".tmp")) ft ff q = Ok opts →
  contains ".tmp" (path_join temp_dir id) = false →
  outtmpl opts = path_join temp_dir id +:+ ".%(ext)s"
  ∧ ∀ id', startswith id "/" = false → startswith id' "/" = false →
           path_join temp_dir id = path_join temp_dir id' → id = id'.
Proof.
  intros Hopts Hc. split.
  - assert (Hout : outtmpl opts
                   = replace ".tmp" ".%(ext)s" (path_join temp_dir (id +:+ ".tmp"))).
    { unfold build_ydl_opts in Hopts.
      destruct (decide (ft = PStr "audio")); destruct (val_lower ff); simpl in Hopts;
        try discriminate.
      - by injection Hopts as <-.
      - destruct (format_string _ _); simpl in Hopts; [| discriminate].
        by injection Hopts as <-. }
    rewrite Hout, (path_join_suffix temp_dir id ".tmp" eq_refl).
    by apply replace_tmp_suffix.
  - intros id' Hid Hid'. unfold path_join. rewrite Hid, Hid'.
    destruct (String.eqb temp_dir "" || endswith temp_dir "/").
    + apply append_inj_l.
    + intros H. apply append_inj_l in H. by apply (append_inj_l "/") in H.
Qed.

Lemma outtmpl_of_job_sample :
  ∃ opts,
    build_ydl_opts "id1" (path_join "/tmp" ("id1" +:+ ".tmp")) (PStr "audio") (PStr "mp3")
      (PStr "320") = Ok opts
    ∧ outtmpl opts = path_join "/tmp" "id1" +:+ ".%(ext)s".
Proof.
  eexists. split; [reflexivity |].
  exact (proj1 (outtmpl_of_job "/tmp" "id1" (PStr "audio") (PStr "mp3") (PStr "320") _
                  eq_refl eq_refl)).
Defined.

(** ** A URL that cannot be cleaned *)

(** X27: a submission is accepted whenever its URL is truthy; if cleaning
    that URL raises (a URL that is not a string, a netloc that urlparse
    rejects), the job thread dies on its first statement, outside the try,
    and writes nothing: the job answers queued from then on. *)
Theorem uncleanable_url_stays_queued (temp_dir : string)
    (engine : ydl_opts → pyval → engine_run) (str_exn : exn → string)
    (valid_netloc : string → bool) (data : gmap string pyval) (uuid4 : string)
    (w : world) (e : exn) :
  truthy (dict_get_default data "url" (PStr "")) = true →
  clean_youtube_url_val valid_netloc (dict_get_default data "url" (PStr "")) = Raise e →
  ∃ w1 t,
    download data uuid4 w = (Ok (Json 200 (BSuccess uuid4)), w1)
    ∧ threads w1 = (threads w ++ [t])%list
    ∧ run_thread temp_dir engine str_exn valid_netloc t w1 = (Raise e, w1)
    ∧ download_status_endpoint uuid4 w1 = (Ok (Json 200 (BStatus queued_snapshot)), w1).
Proof.
  intros Hurl Hclean. unfold download. rewrite Hurl. simpl.
  eexists _, _. split; [reflexivity |]. split; [reflexivity |]. split.
  - cbn [run_thread]. unfold download_video_with_progress. unfold bind at 1.
    unfold lift at 1. by rewrite Hclean.
  - unfold download_status_endpoint. unfold_monad. simpl. by rewrite lookup_insert_eq.
Qed.

Lemma uncleanable_url_stays_queued_sample :
  ∃ w1 t,
    download numeric_url_submission "id1" empty_world = (Ok (Json 200 (BSuccess "id1")), w1)
    ∧ threads w1 = (threads empty_world ++ [t])%list
    ∧ run_thread "/tmp" sample_engine (λ _, "failed") (λ _, false) t w1
      = (Raise AttributeError, w1)
    ∧ download_status_endpoint "id1" w1 = (Ok (Json 200 (BStatus queued_snapshot)), w1).
Proof.
  exact (uncleanable_url_stays_queued "/tmp" sample_engine (λ _, "failed") (λ _, false)
           numeric_url_submission "id1" empty_world AttributeError eq_refl eq_refl).
Defined.
